(** * WebSocketServer and wsSpectrogram: a shallow embedding

    The development follows [src/util/WebSocketServer.cpp],
    [src/util/ws_spectrogram.cpp] and [src/util/log.cpp].  The server object
    is a record, its methods are computations in a state monad that also
    carries C++ exceptions and undefined behaviour, and everything the code
    obtains from its collaborators (libwebsockets, liquid-dsp, spdlog, the
    clock) is a field of the class [Externals]. *)

From Stdlib Require Import ZArith Ascii String List.
From Stdlib Require Import Numbers.DecimalString Floats.SpecFloat DecimalPos DecimalZ.
From stdpp Require Import base gmap list strings sorting.

Local Open Scope Z_scope.

(** ** C++ values: integers, strings, floats *)

Module Cxx.

(** [int] is 32 bits wide and [size_t] 64 bits wide. *)
Definition INT_MIN : Z := - 2 ^ 31.
Definition INT_MAX : Z := 2 ^ 31 - 1.
Definition in_int_range (z : Z) : bool := (INT_MIN <=? z) && (z <=? INT_MAX).

(** Conversion of a value of any integer type to [int] and to [size_t]. *)
Definition to_int (z : Z) : Z := (z + 2 ^ 31) mod 2 ^ 32 - 2 ^ 31.
Definition to_size_t (z : Z) : Z := z mod 2 ^ 64.

(** [std::string::npos] *)
Definition npos : Z := 2 ^ 64 - 1.

(** The three ways a call can end: a value, a C++ exception, or no defined
    result at all ([Fault]): a call through a null pointer, a cast the
    language does not define, a wait that nothing ends. *)
Inductive Exn : Type :=
| runtime_error (what : string)
| invalid_argument (what : string)
| out_of_range (what : string).

Inductive Res (A : Type) : Type :=
| Ok (a : A)
| Throw (e : Exn)
| Fault.
Arguments Ok {A} a.
Arguments Throw {A} e.
Arguments Fault {A}.

(** [std::to_string(int)]: decimal digits, a leading [-] when negative. *)
Definition to_string (z : Z) : string := NilZero.string_of_int (Z.to_int z).

(** [strlen(s.c_str())]: the bytes before the first NUL. *)
Fixpoint strlen (s : string) : nat :=
  match s with
  | EmptyString => O
  | String c r => if Ascii.eqb c Ascii.zero then O else S (strlen r)
  end.

(** The [len] bytes that start at the pointer [s.c_str()]. *)
Definition bytes (s : string) (len : nat) : string := substring 0 len s.

(** [s.find_first_of(c)] *)
Fixpoint index_of (c : ascii) (s : string) : option nat :=
  match s with
  | EmptyString => None
  | String d r => if Ascii.eqb d c then Some O else S <$> index_of c r
  end.

Definition find_first_of (s : string) (c : ascii) : Z :=
  match index_of c s with
  | Some i => Z.of_nat i
  | None => npos
  end.

(** [s.substr(pos, count)]: the characters from [pos] on, at most
    [min(count, size - pos)] of them; [substr s pos npos] is
    [s.substr(pos)]. *)
Definition substr (s : string) (pos count : Z) : Res string :=
  let size := Z.of_nat (String.length s) in
  if size <? pos
  then Throw (out_of_range "basic_string::substr")
  else Ok (substring (Z.to_nat pos) (Z.to_nat (Z.min count (size - pos))) s).

(** [std::stoi(s)] in base 10, as [strtol] reads it: white space, an
    optional sign, then the longest run of digits. *)
Definition isspace (c : ascii) : bool :=
  let n := nat_of_ascii c in (n =? 32)%nat || ((9 <=? n)%nat && (n <=? 13)%nat).

Definition digit (c : ascii) : option Z :=
  let n := nat_of_ascii c in
  if (48 <=? n)%nat && (n <=? 57)%nat then Some (Z.of_nat n - 48) else None.

Fixpoint skip_space (s : string) : string :=
  match s with
  | String c r => if isspace c then skip_space r else s
  | EmptyString => s
  end.

Fixpoint digits (s : string) (acc : Z) : Z :=
  match s with
  | String c r =>
      match digit c with
      | Some d => digits r (10 * acc + d)
      | None => acc
      end
  | EmptyString => acc
  end.

Definition starts_with_digit (s : string) : bool :=
  match s with
  | String c _ => bool_decide (is_Some (digit c))
  | EmptyString => false
  end.

Definition stoi (s : string) : Res Z :=
  let s1 := skip_space s in
  let '(negative, s2) :=
    match s1 with
    | String "-" r => (true, r)
    | String "+" r => (false, r)
    | _ => (false, s1)
    end in
  if starts_with_digit s2 then
    let v := if negative : bool then - digits s2 0 else digits s2 0 in
    if in_int_range v then Ok v else Throw (out_of_range "stoi")
  else Throw (invalid_argument "stoi").

(** A [float] is a sign, a mantissa and a binary exponent, or one of the
    special values.  The cast [(int)x] drops the fractional part
    ([Z.quot] rounds toward zero) and is undefined when [x] is not finite
    or the integral part does not fit an [int]. *)
Definition float_num (x : spec_float) : Z :=
  match x with
  | S754_finite s m e => (if s then Z.neg m else Z.pos m) * 2 ^ Z.max e 0
  | _ => 0
  end.

Definition float_den (x : spec_float) : Z :=
  match x with
  | S754_finite _ _ e => 2 ^ Z.max (- e) 0
  | _ => 1
  end.

Definition trunc (x : spec_float) : Z := Z.quot (float_num x) (float_den x).

Definition is_finite (x : spec_float) : bool :=
  match x with
  | S754_zero _ | S754_finite _ _ _ => true
  | S754_infinity _ | S754_nan => false
  end.

Definition int_of_float (x : spec_float) : Res Z :=
  if is_finite x && in_int_range (trunc x) then Ok (trunc x) else Fault.

End Cxx.
Import Cxx.

(** ** The data model *)

(** [class Connection]: the private members the methods of
    [WebSocketServer.cpp] read and write. *)
Record Connection : Type := {
  buffer : list string;
  keyValueMap : gmap string string;
  permissions : list string;
  user : string;
  createTime : Z;
}.

(** A [Connection*] held by the registry.  Every pointer comes from its own
    [new Connection] and is stored in one slot only, so the pointee is kept
    in the slot. *)
Inductive ConnPtr : Type :=
| nullptr
| ptr (c : Connection).

(** spdlog levels. *)
Inductive level : Type := lvl_trace | lvl_debug | lvl_info | lvl_warn | lvl_error | lvl_critical.

(** What the server does to the outside, in order: the calls into
    libwebsockets, the virtual handlers it invokes, the log macros it
    reaches and what it prints. *)
Inductive Event : Type :=
| EvWrite (fd : Z) (buf : string) (ret : Z)
| EvCallbackOnWritable (fd : Z)
| EvOnConnect (socketID : Z)
| EvOnMessage (socketID : Z) (data : string)
| EvOnDisconnect (socketID : Z)
| EvOnError (socketID : Z) (message : string)
| EvLog (lvl : level) (payload : string)
| EvCout (text : string).

(** [liquid_float_complex] and a batch of samples. *)
Definition liquid_float_complex : Type := spec_float * spec_float.

Record RadioThreadIQData : Type := { data : list liquid_float_complex }.

(** The collaborators.  Each oracle sees the events so far, so two calls
    with the same arguments may answer differently. *)
Class Externals : Type := {
  (** the type of [m_rxFreq] and [m_span], and [operator<<] on it *)
  Freq : Type;
  put_Freq : Freq → string;
  (** the value [lws_write(wsi, buf, len, LWS_WRITE_TEXT)] returns *)
  lws_write : list Event → Z → string → Z;
  (** [time(nullptr)] *)
  time_now : list Event → Z;
  (** [spgramcf_create_default(nfft)], [spgramcf_write(q, x, n)],
      [spgramcf_get_psd(q, sp_psd)]: the value left in [sp_psd[k]] *)
  spgramcf_psd : nat → list liquid_float_complex → nat → spec_float;
  (** the level filter of the TEST logger and the text its formatter
      hands to the sinks *)
  should_log : level → bool;
  formatted : list Event → level → string → string;
}.

Section Server.
Context {E : Externals}.

(** The [wsSpectrogram] object: the [WebSocketServer] base and the
    members of the derived class. *)
Record Server : Type := {
  connections : gmap Z ConnPtr;
  m_socketsOn : bool;
  stopping : bool;
  m_IQdataQueue : list RadioThreadIQData;
  m_IQdataOut : RadioThreadIQData;
  m_rxFreq : Freq;
  m_span : Freq;
  m_msgSOCKET : string;
  trace : list Event;
}.

Definition with_connections (f : gmap Z ConnPtr → gmap Z ConnPtr) (s : Server) : Server :=
  {| connections := f (connections s); m_socketsOn := m_socketsOn s;
     stopping := stopping s;
     m_IQdataQueue := m_IQdataQueue s; m_IQdataOut := m_IQdataOut s;
     m_rxFreq := m_rxFreq s; m_span := m_span s;
     m_msgSOCKET := m_msgSOCKET s; trace := trace s |}.

Definition with_socketsOn (b : bool) (s : Server) : Server :=
  {| connections := connections s; m_socketsOn := b;
     stopping := stopping s;
     m_IQdataQueue := m_IQdataQueue s; m_IQdataOut := m_IQdataOut s;
     m_rxFreq := m_rxFreq s; m_span := m_span s;
     m_msgSOCKET := m_msgSOCKET s; trace := trace s |}.

Definition with_stopping (b : bool) (s : Server) : Server :=
  {| connections := connections s; m_socketsOn := m_socketsOn s;
     stopping := b;
     m_IQdataQueue := m_IQdataQueue s; m_IQdataOut := m_IQdataOut s;
     m_rxFreq := m_rxFreq s; m_span := m_span s;
     m_msgSOCKET := m_msgSOCKET s; trace := trace s |}.

Definition with_IQdataQueue (q : list RadioThreadIQData) (s : Server) : Server :=
  {| connections := connections s; m_socketsOn := m_socketsOn s;
     stopping := stopping s;
     m_IQdataQueue := q; m_IQdataOut := m_IQdataOut s;
     m_rxFreq := m_rxFreq s; m_span := m_span s;
     m_msgSOCKET := m_msgSOCKET s; trace := trace s |}.

Definition with_IQdataOut (b : RadioThreadIQData) (s : Server) : Server :=
  {| connections := connections s; m_socketsOn := m_socketsOn s;
     stopping := stopping s;
     m_IQdataQueue := m_IQdataQueue s; m_IQdataOut := b;
     m_rxFreq := m_rxFreq s; m_span := m_span s;
     m_msgSOCKET := m_msgSOCKET s; trace := trace s |}.

Definition with_msgSOCKET (f : string → string) (s : Server) : Server :=
  {| connections := connections s; m_socketsOn := m_socketsOn s;
     stopping := stopping s;
     m_IQdataQueue := m_IQdataQueue s; m_IQdataOut := m_IQdataOut s;
     m_rxFreq := m_rxFreq s; m_span := m_span s;
     m_msgSOCKET := f (m_msgSOCKET s); trace := trace s |}.

Definition with_trace (f : list Event → list Event) (s : Server) : Server :=
  {| connections := connections s; m_socketsOn := m_socketsOn s;
     stopping := stopping s;
     m_IQdataQueue := m_IQdataQueue s; m_IQdataOut := m_IQdataOut s;
     m_rxFreq := m_rxFreq s; m_span := m_span s;
     m_msgSOCKET := m_msgSOCKET s; trace := f (trace s) |}.

(** ** Methods as computations *)

(** A method call takes the object to an outcome and the object as the
    call leaves it.  After [Throw] or [Fault] the rest of the method is
    skipped. *)
Definition M (A : Type) : Type := Server → Res A * Server.

Global Instance M_ret : MRet M := λ A a s, (Ok a, s).

Global Instance M_bind : MBind M := λ A B f m s,
  match m s with
  | (Ok a, s') => f a s'
  | (Throw e, s') => (Throw e, s')
  | (Fault, s') => (Fault, s')
  end.

Definition get : M Server := λ s, (Ok s, s).
Definition modify (f : Server → Server) : M unit := λ s, (Ok (), f s).
Definition lift {A} (r : Res A) : M A := λ s, (r, s).
Definition throw {A} (e : Exn) : M A := lift (Throw e).
Definition emit (ev : Event) : M unit := modify (with_trace (λ t, t ++ [ev])).

Fixpoint for_each {A} (l : list A) (body : A → M unit) : M unit :=
  match l with
  | [] => mret ()
  | x :: rest => body x;; for_each rest body
  end.

(** ** [Connection] *)

Definition new_Connection : Connection :=
  {| buffer := []; keyValueMap := ∅; permissions := []; user := EmptyString;
     createTime := 0 |}.

Definition setCreateTime (t : Z) (c : Connection) : Connection :=
  {| buffer := buffer c; keyValueMap := keyValueMap c;
     permissions := permissions c; user := user c; createTime := t |}.

Definition hasPermission (permission : string) (c : Connection) : bool :=
  existsb (String.eqb permission) (permissions c).

Definition push_to_buffer (data : string) (c : Connection) : Connection :=
  {| buffer := buffer c ++ [data]; keyValueMap := keyValueMap c;
     permissions := permissions c; user := user c; createTime := createTime c |}.

Definition getBuffer (c : Connection) : list string := buffer c.

Definition with_keyValueMap (kv : gmap string string) (c : Connection) : Connection :=
  {| buffer := buffer c; keyValueMap := kv;
     permissions := permissions c; user := user c; createTime := createTime c |}.

(** [Connection::operator[]] is [keyValueMap[key]]: a key that is absent is
    inserted with an empty string before the reference is returned.  The
    result is the string the reference designates and the connection
    afterwards. *)
Definition Connection_index (key : string) (c : Connection) : string * Connection :=
  match keyValueMap c !! key with
  | Some v => (v, c)
  | None => (EmptyString, with_keyValueMap (<[key := EmptyString]> (keyValueMap c)) c)
  end.

(** ** [WebSocketServer] *)

(** [this->connections[socketID]]: [std::map::operator[]] inserts a null
    pointer for a key that is absent. *)
Definition connections_at (socketID : Z) : M ConnPtr := λ s,
  match connections s !! socketID with
  | Some p => (Ok p, s)
  | None => (Ok nullptr, with_connections (<[socketID := nullptr]>) s)
  end.

(** [*p] and [p->...] *)
Definition deref (p : ConnPtr) : M Connection :=
  match p with
  | ptr c => mret c
  | nullptr => lift Fault
  end.

(** A write through the pointer held in slot [socketID]. *)
Definition store (socketID : Z) (c : Connection) : M unit :=
  modify (with_connections (<[socketID := ptr c]>)).

(** The entries of the registry as a range-for visits them: [std::map]
    iterates in ascending key order. *)
Definition key_le (a b : Z * ConnPtr) : Prop := a.1 ≤ b.1.

Global Instance key_le_dec : RelDecision key_le.
Proof. intros a b. unfold key_le. apply _. Defined.

Definition entries (m : gmap Z ConnPtr) : list (Z * ConnPtr) :=
  merge_sort key_le (map_to_list m).

Definition send (socketID : Z) (data : string) : M unit :=
  p ← connections_at socketID;
  c ← deref p;
  store socketID (push_to_buffer data c).

Definition broadcast (data : string) : M unit :=
  s ← get;
  for_each (entries (connections s)) (λ connection, send connection.1 data).

Definition setValue (socketID : Z) (name value : string) : M unit :=
  p ← connections_at socketID;
  c ← deref p;
  store socketID (with_keyValueMap (<[name := value]> (keyValueMap (Connection_index name c).2))
                                   (Connection_index name c).2).

Definition getValue (socketID : Z) (name : string) : M string :=
  p ← connections_at socketID;
  c ← deref p;
  store socketID (Connection_index name c).2;;
  mret (Connection_index name c).1.

Definition getNumberOfConnections : M Z :=
  s ← get; mret (to_int (Z.of_nat (size (connections s)))).

(** [delete c] frees the pointee; [delete] of a null pointer does nothing. *)
Definition _removeConnection (socketID : Z) : M unit :=
  c ← connections_at socketID;
  modify (with_connections (delete socketID)).

Definition broadcast_log (data : string) : M unit :=
  s ← get;
  for_each (entries (connections s)) (λ id_and_connection,
    c ← deref id_and_connection.2;
    if hasPermission "logs" c
    then store id_and_connection.1 (push_to_buffer data c)
    else mret ()).

(** ** Logging ([log.cpp])

    The [LOG_TEST_*] macros log to the TEST logger.  One of its sinks is
    the [WebSocketSink], whose [sink_it_] formats the record and hands it
    to [broadcast_log]; the global [webSocketServer] is this object. *)
Definition LOG_TEST (lvl : level) (payload : string) : M unit :=
  s ← get;
  emit (EvLog lvl payload);;
  if should_log lvl
  then broadcast_log (formatted (trace s) lvl payload)
  else mret ().

Definition LOG_TEST_DEBUG : string → M unit := LOG_TEST lvl_debug.
Definition LOG_TEST_INFO : string → M unit := LOG_TEST lvl_info.
Definition LOG_TEST_ERROR : string → M unit := LOG_TEST lvl_error.

(** ** The virtual handlers and the wrappers that call them *)

Class WebSocketHandlers : Type := {
  onConnect : Z → M unit;
  onMessage : Z → string → M unit;
  onDisconnect : Z → M unit;
  onError : Z → string → M unit;
}.

Section Base.
Context {H : WebSocketHandlers}.

Definition onConnectWrapper (socketID : Z) : M unit :=
  s ← get;
  let c := setCreateTime (time_now (trace s)) new_Connection in
  modify (with_connections (<[socketID := ptr c]>));;
  emit (EvOnConnect socketID);;
  onConnect socketID.

Definition onDisconnectWrapper (socketID : Z) : M unit :=
  emit (EvOnDisconnect socketID);;
  onDisconnect socketID;;
  _removeConnection socketID.

Definition onErrorWrapper (socketID : Z) (message : string) : M unit :=
  LOG_TEST_DEBUG ("Error: " +:+ message +:+ " on socketID '" +:+ to_string socketID +:+ "'");;
  emit (EvOnError socketID message);;
  onError socketID message;;
  _removeConnection socketID.

(** ** [callback_main] *)

Inductive lws_callback_reasons : Type :=
| LWS_CALLBACK_ESTABLISHED
| LWS_CALLBACK_SERVER_WRITEABLE
| LWS_CALLBACK_RECEIVE
| LWS_CALLBACK_CLOSED
| LWS_CALLBACK_OTHER.

Definition lws_callback_on_writable (wsi : Z) : M unit :=
  emit (EvCallbackOnWritable wsi).

(** The line feed that [std::endl] writes, code 10 *)
Definition endl : string := String "010" EmptyString.

Definition do_lws_write (wsi : Z) (buf : string) : M Z := λ s,
  let ret := to_int (lws_write (trace s) wsi buf) in
  (Ok ret, with_trace (λ t, t ++ [EvWrite wsi buf ret]) s).

(** The [while (!buffer.empty())] loop.  [buffer] is the local variable of
    [callback_main]; each turn either pops its head or leaves the loop. *)
Fixpoint drain (fd : Z) (buffer : list string) : M unit :=
  match buffer with
  | [] => mret ()
  | message :: rest =>
      let msgLen := strlen message in
      charsSent ← do_lws_write fd (bytes message msgLen);
      if to_size_t charsSent <? Z.of_nat msgLen then
        emit (EvCout ("check check " +:+ to_string fd +:+ " "
                      +:+ to_string (Z.of_nat (length buffer)) +:+ endl));;
        onErrorWrapper fd "Error writing to socket"
      else
        drain fd rest
  end.

(** [wsi] stands for its socket descriptor, [input] for
    [string((const char* )in, len)]. *)
Definition callback_main (wsi : Z) (reason : lws_callback_reasons) (input : string) : M Z :=
  match reason with
  | LWS_CALLBACK_ESTABLISHED =>
      onConnectWrapper wsi;;
      lws_callback_on_writable wsi
  | LWS_CALLBACK_SERVER_WRITEABLE =>
      p ← connections_at wsi;
      c ← deref p;
      (* [auto buffer = ...->getBuffer();] copies the list *)
      let buffer := getBuffer c in
      drain wsi buffer;;
      lws_callback_on_writable wsi
  | LWS_CALLBACK_RECEIVE =>
      emit (EvOnMessage wsi input);;
      onMessage wsi input
  | LWS_CALLBACK_CLOSED =>
      onDisconnectWrapper wsi
  | LWS_CALLBACK_OTHER => mret ()
  end;;
  mret 0.

(** One call of [lws_service]: the callbacks it makes, in order, and the
    value it returns. *)
Record lws_service_run : Type := {
  callbacks : list (Z * lws_callback_reasons * string);
  service_result : Z;
}.

Definition wait (timeout : Z) (svc : lws_service_run) : M unit :=
  for_each (callbacks svc) (λ cb, callback_main cb.1.1 cb.1.2 cb.2;; mret ());;
  if service_result svc <? 0
  then throw (runtime_error "Error polling for socket activity.")
  else mret ().

End Base.

(** ** [wsSpectrogram] *)

Definition wsSpectrogram_onConnect (socketID : Z) : M unit :=
  LOG_TEST_INFO ("wsSpectrogram::onConnect() socketID # " +:+ to_string socketID +:+ " ");;
  modify (with_socketsOn true).

Definition wsSpectrogram_onMessage (socketID : Z) (data : string) : M unit :=
  LOG_TEST_INFO ("User click: " +:+ data +:+ " ");;
  cmd ← (if 0 <? find_first_of data ":"
         then lift (substr data 0 (find_first_of data ":"))
         else mret EmptyString);
  par ← (if 0 <? find_first_of data ":"
         then arg ← lift (substr data (to_size_t (find_first_of data ":" + 1)) npos);
              lift (stoi arg)
         else mret 0);
  LOG_TEST_INFO ("cmd: " +:+ cmd +:+ " par: " +:+ to_string par +:+ " ").

Definition wsSpectrogram_onDisconnect (socketID : Z) : M unit :=
  LOG_TEST_INFO ("wsSpectrogram::onDisconnect() socketID # " +:+ to_string socketID +:+ " ");;
  modify (with_socketsOn false).

Definition wsSpectrogram_onError (socketID : Z) (message : string) : M unit :=
  LOG_TEST_ERROR ("wsSpectrogram::onError() socketID # " +:+ to_string socketID
                  +:+ " - " +:+ message +:+ " ").

Global Instance wsSpectrogram : WebSocketHandlers := {|
  onConnect := wsSpectrogram_onConnect;
  onMessage := wsSpectrogram_onMessage;
  onDisconnect := wsSpectrogram_onDisconnect;
  onError := wsSpectrogram_onError;
|}.

Definition terminate : M unit := modify (with_stopping true).

(** Modelled from the spec: the bound sample queue ([RadioThreadIQDataQueue],
    declared outside [src/]) is a FIFO of batches; [size()] is its depth and
    [pop(out)] moves exactly one batch, the oldest, into [out].  On an empty
    queue [pop] waits for a producer, and here no other thread runs; [run]
    calls it only after [size() > 5]. *)
Definition queue_size (q : list RadioThreadIQData) : Z := Z.of_nat (length q).

Definition queue_pop : M unit := λ s,
  match m_IQdataQueue s with
  | batch :: rest => (Ok (), with_IQdataOut batch (with_IQdataQueue rest s))
  | [] => (Fault, s)
  end.

(** [unsigned int nfft = 512;] *)
Definition nfft : nat := 512.

(** The double-quote character, code 34 *)
Definition dq : string := String "034" EmptyString.

(** [m_msgSOCKET << text] *)
Definition put (text : string) : M unit := modify (with_msgSOCKET (λ m, m +:+ text)).

(** [int i = 0; while (i < nfft) { ...; i++; }] *)
Definition write_psd (sp_psd : nat → spec_float) : M unit :=
  for_each (seq 0 nfft) (λ i,
    p ← lift (int_of_float (sp_psd i));
    put (to_string p);;
    if (i <? nfft - 1)%nat then put "," else mret ()).

(** The block under [if(m_socketsOn)], first part: estimate the spectrum
    and serialise it into [m_msgSOCKET]. *)
Definition write_spectrum (x : list liquid_float_complex) : M unit :=
  let sp_psd := spgramcf_psd nfft x in
  modify (with_msgSOCKET (λ _, EmptyString));;
  put ("{" +:+ dq +:+ "center" +:+ dq +:+ ":[");;
  s ← get;
  put (put_Freq (m_rxFreq s));;
  put "],";;
  put (dq +:+ "span" +:+ dq +:+ ":[");;
  put (put_Freq (m_span s));;
  put "],";;
  put (dq +:+ "s" +:+ dq +:+ ":[");;
  write_psd sp_psd;;
  put "]}".

(** The whole block: [broadcast(m_msgSOCKET.str())] ends it. *)
Definition send_spectrum (x : list liquid_float_complex) : M unit :=
  write_spectrum x;;
  s ← get;
  broadcast (m_msgSOCKET s).

(** One turn of [while(!stopping)] after the poll. *)
Definition run_body : M unit :=
  modify (with_IQdataOut {| data := [] |});;
  s ← get;
  if 5 <? queue_size (m_IQdataQueue s) then
    queue_pop;;
    s1 ← get;
    let x := data (m_IQdataOut s1) in
    if m_socketsOn s1 then send_spectrum x else mret ()
  else mret ().

Definition run_iteration (svc : lws_service_run) : M unit :=
  wait (-1) svc;;
  run_body.

(** The loop of [run], for as many turns as [schedule] has polls. *)
Fixpoint run_loop (schedule : list lws_service_run) : M unit :=
  match schedule with
  | [] => mret ()
  | svc :: rest =>
      s ← get;
      if stopping s then mret () else run_iteration svc;; run_loop rest
  end.

(** The object a successful construction leaves: no connection, the gate
    closed. *)
Definition constructed (queue : list RadioThreadIQData) (rxFreq span : Freq) : Server :=
  {| connections := ∅; m_socketsOn := false; stopping := false;
     m_IQdataQueue := queue; m_IQdataOut := {| data := [] |};
     m_rxFreq := rxFreq; m_span := span; m_msgSOCKET := EmptyString; trace := [] |}.

End Server.

(** * Descriptions

    What the statements below speak of: observations of the object, the
    object a call leaves, and conditions on the collaborators. *)

Section Descriptions.
Context {E : Externals}.

Definition is_live (p : ConnPtr) : bool :=
  match p with ptr _ => true | nullptr => false end.

(** No slot of the registry holds a null pointer. *)
Definition all_live (m : gmap Z ConnPtr) : Prop :=
  map_Forall (λ _ p, is_live p = true) m.

(** What [broadcast_log data] does to one slot. *)
Definition log_to (data : string) (p : ConnPtr) : ConnPtr :=
  match p with
  | ptr c => ptr (if hasPermission "logs" c then push_to_buffer data c else c)
  | nullptr => nullptr
  end.

Definition log_step (data : string) (m : gmap Z ConnPtr) (e : Z * ConnPtr) : gmap Z ConnPtr :=
  match e.2 with
  | ptr c => if hasPermission "logs" c then <[e.1 := ptr (push_to_buffer data c)]> m else m
  | nullptr => m
  end.

(** What one log record does to a slot: the formatted line reaches the
    connections that hold the permission "logs", when the level passes. *)
Definition log_line (lvl : level) (payload : string) (t : list Event) (p : ConnPtr) : ConnPtr :=
  if should_log lvl then log_to (formatted t lvl payload) p else p.

Definition logged (lvl : level) (payload : string) (s : Server) : Server :=
  with_connections (fmap (log_line lvl payload (trace s)))
    (with_trace (λ t, t ++ [EvLog lvl payload]) s).

Definition fresh_connection (s : Server) : Connection :=
  setCreateTime (time_now (trace s)) new_Connection.

(** The object after [onConnectWrapper socketID]. *)
Definition connected (socketID : Z) (s : Server) : Server :=
  with_socketsOn true
    (logged lvl_info
       ("wsSpectrogram::onConnect() socketID # " +:+ to_string socketID +:+ " ")
       (with_trace (λ t, t ++ [EvOnConnect socketID])
          (with_connections (<[socketID := ptr (fresh_connection s)]>) s))).

(** The object after [onDisconnectWrapper socketID]. *)
Definition disconnected (socketID : Z) (s : Server) : Server :=
  with_connections (delete socketID)
    (with_socketsOn false
       (logged lvl_info
          ("wsSpectrogram::onDisconnect() socketID # " +:+ to_string socketID +:+ " ")
          (with_trace (λ t, t ++ [EvOnDisconnect socketID]) s))).

(** The two life cycle callbacks of the engine. *)
Inductive lifecycle : Type :=
| Established (fd : Z)
| Closed (fd : Z).

Definition deliver (e : lifecycle) : M unit :=
  match e with
  | Established fd => callback_main fd LWS_CALLBACK_ESTABLISHED EmptyString;; mret ()
  | Closed fd => callback_main fd LWS_CALLBACK_CLOSED EmptyString;; mret ()
  end.

(** At least one connection is attached. *)
Definition attached (s : Server) : Prop :=
  ∃ id c, connections s !! id = Some (ptr c).

(** What holds between two callbacks. *)
Definition gate_inv (s : Server) : Prop :=
  all_live (connections s) ∧ (m_socketsOn s = true → attached s).

(** The call of [lws_write] for [message] when the events so far are [t]:
    the value it returns and the event it leaves. *)
Definition charsSent (fd : Z) (t : list Event) (message : string) : Z :=
  to_int (lws_write t fd (bytes message (strlen message))).

Definition write_event (fd : Z) (t : list Event) (message : string) : Event :=
  EvWrite fd (bytes message (strlen message)) (charsSent fd t message).

(** The write events of sending [messages] one after the other. *)
Fixpoint writes (fd : Z) (t : list Event) (messages : list string) : list Event :=
  match messages with
  | [] => []
  | message :: rest =>
      write_event fd t message :: writes fd (t ++ [write_event fd t message]) rest
  end.

(** Each of these sends is taken as complete by the test of the loop. *)
Fixpoint all_sent (fd : Z) (t : list Event) (messages : list string) : bool :=
  match messages with
  | [] => true
  | message :: rest =>
      negb (to_size_t (charsSent fd t message) <? Z.of_nat (strlen message))
      && all_sent fd (t ++ [write_event fd t message]) rest
  end.

(** The object after [onErrorWrapper socketID message]. *)
Definition errored (socketID : Z) (message : string) (s : Server) : Server :=
  with_connections (delete socketID)
    (logged lvl_error
       ("wsSpectrogram::onError() socketID # " +:+ to_string socketID
        +:+ " - " +:+ message +:+ " ")
       (with_trace (λ t, t ++ [EvOnError socketID message])
          (logged lvl_debug
             ("Error: " +:+ message +:+ " on socketID '" +:+ to_string socketID +:+ "'")
             s))).

(** The message as the specification writes it: the texts of the centre
    frequency and the span, then the powers as decimal integers with a
    comma between neighbours. *)
Definition spectrum_text (center span : string) (powers : list Z) : string :=
  "{" +:+ dq +:+ "center" +:+ dq +:+ ":[" +:+ center +:+ "],"
  +:+ dq +:+ "span" +:+ dq +:+ ":[" +:+ span +:+ "],"
  +:+ dq +:+ "s" +:+ dq +:+ ":[" +:+ String.concat "," (map to_string powers) +:+ "]}".

Fixpoint count_char (c : ascii) (s : string) : nat :=
  match s with
  | EmptyString => O
  | String d r => if Ascii.eqb d c then S (count_char c r) else count_char c r
  end.

(** The cast [(int)x] is defined. *)
Definition castable (x : spec_float) : bool := is_finite x && in_int_range (trunc x).

(** What one turn of the loop over [sp_psd] appends. *)
Definition psd_item (last : nat) (sp_psd : nat → spec_float) (i : nat) : string :=
  to_string (trunc (sp_psd i)) +:+ (if (i <? last)%nat then "," else EmptyString).

Definition concat_all (l : list string) : string := foldr String.app EmptyString l.

(** A computation that leaves the sample queue as it found it, however
    it ends. *)
Definition keeps_queue {A} (m : M A) : Prop :=
  ∀ s, m_IQdataQueue (m s).2 = m_IQdataQueue s.

(** A computation that, started without a null slot, ends without one
    unless it ends in undefined behaviour. *)
Definition stays_live {A} (m : M A) : Prop :=
  ∀ s, all_live (connections s) → (m s).1 ≠ Fault → all_live (connections (m s).2).

(** What [broadcast data] does to one slot. *)
Definition push_ptr (data : string) (p : ConnPtr) : ConnPtr :=
  match p with
  | ptr c => ptr (push_to_buffer data c)
  | nullptr => nullptr
  end.

(** The queue of connection [id], and the object a call leaves. *)
Definition outbound_queue (s : Server) (id : Z) : option (list string) :=
  match connections s !! id with
  | Some (ptr c) => Some (buffer c)
  | _ => None
  end.

Definition after {A} (m : M A) (s : Server) : Server := (m s).2.

(** The connection with [messages] appended to its queue, in order. *)
Definition push_all (messages : list string) (c : Connection) : Connection :=
  foldl (λ c data, push_to_buffer data c) c messages.

(** The identifiers that a sequence of life cycle callbacks leaves
    registered, starting from [ids]. *)
Definition registered_after (ids : gset Z) (evs : list lifecycle) : gset Z :=
  foldl (λ ids e, match e with
                  | Established fd => {[fd]} ∪ ids
                  | Closed fd => ids ∖ {[fd]}
                  end) ids evs.

(** What went to the transport: descriptor and bytes of each [lws_write],
    in order. *)
Definition written (t : list Event) : list (Z * string) :=
  omap (λ ev, match ev with EvWrite fd buf _ => Some (fd, buf) | _ => None end) t.

(** A computation that leaves [field] of the object as it found it,
    however it ends. *)
Definition untouched {A B} (field : Server → B) (m : M A) : Prop :=
  ∀ s, field (m s).2 = field s.

(** A member that is neither the registry, nor the gate flag, nor the
    event log. *)
Definition beside_registry {B} (field : Server → B) : Prop :=
  (∀ f s, field (with_connections f s) = field s)
  ∧ (∀ b s, field (with_socketsOn b s) = field s)
  ∧ (∀ f s, field (with_trace f s) = field s).

(** A member the producer's turn does not write either. *)
Definition beside_producer {B} (field : Server → B) : Prop :=
  beside_registry field
  ∧ (∀ q s, field (with_IQdataQueue q s) = field s)
  ∧ (∀ b s, field (with_IQdataOut b s) = field s)
  ∧ (∀ f s, field (with_msgSOCKET f s) = field s).

(** The calls that the users of the object and the engine make. *)
Inductive call : Type :=
| call_send (socketID : Z) (data : string)
| call_broadcast (data : string)
| call_setValue (socketID : Z) (name value : string)
| call_getValue (socketID : Z) (name : string)
| call_getNumberOfConnections
| call_callback (wsi : Z) (reason : lws_callback_reasons) (input : string)
| call_wait (timeout : Z) (svc : lws_service_run)
| call_turns (schedule : list lws_service_run)
| call_terminate
| call_log (lvl : level) (payload : string).

Definition perform (c : call) : M unit :=
  match c with
  | call_send socketID data => send socketID data
  | call_broadcast data => broadcast data
  | call_setValue socketID name value => setValue socketID name value
  | call_getValue socketID name => getValue socketID name;; mret ()
  | call_getNumberOfConnections => getNumberOfConnections;; mret ()
  | call_callback wsi reason input => callback_main wsi reason input;; mret ()
  | call_wait timeout svc => wait timeout svc
  | call_turns schedule => run_loop schedule
  | call_terminate => terminate
  | call_log lvl payload => LOG_TEST lvl payload
  end.

End Descriptions.

(** ** The benches of the scenarios *)

(** A transport that takes every message whole, and one that takes at most
    [limit] bytes of a message. *)
Definition accept_all : list Event → Z → string → Z :=
  λ _ _ buf, Z.of_nat (String.length buf).

Definition accept_at_most (limit : Z) : list Event → Z → string → Z :=
  λ _ _ buf, Z.min limit (Z.of_nat (String.length buf)).

(** A bench: frequencies are integers, the clock counts events, the
    estimator alternates 2.75 and -2.75 over the bins, every level is
    logged and the formatter hands the payload on. *)
Definition bench (w : list Event → Z → string → Z) : Externals :=
  {| Freq := Z;
     put_Freq := to_string;
     lws_write := w;
     time_now := λ t, Z.of_nat (length t);
     spgramcf_psd := λ _ _ k,
       if Nat.even k then S754_finite false 11 (-2) else S754_finite true 11 (-2);
     should_log := λ _, true;
     formatted := λ _ _ payload, payload |}.

(** Connection 7 is established, then "A" and "B" are queued for it. *)
Definition bench_start (w : list Event → Z → string → Z) : @Server (bench w) :=
  @constructed (bench w) [] 145000000 2000000.

Definition bench_7 (w : list Event → Z → string → Z) : @Server (bench w) :=
  after (deliver (Established 7)) (bench_start w).

Definition bench_AB (w : list Event → Z → string → Z) : @Server (bench w) :=
  after (send 7 "A";; send 7 "B") (bench_7 w).

(** Connection 7 has closed. *)
Definition bench_closed : @Server (bench accept_all) :=
  after (deliver (Closed 7)) (bench_AB accept_all).

(** Connection 7 queues "A", "BC" and "D". *)
Definition bench_ABCD : @Server (bench (accept_at_most 1)) :=
  after (send 7 "A";; send 7 "BC";; send 7 "D") (bench_7 (accept_at_most 1)).

(** Two connections, of which only 1 holds the permission "logs". *)
Definition with_permissions (l : list string) (c : Connection) : Connection :=
  {| buffer := buffer c; keyValueMap := keyValueMap c;
     permissions := l; user := user c; createTime := createTime c |}.

Definition bench_logs : @Server (bench accept_all) :=
  with_connections
    (λ _, <[1 := ptr (with_permissions ["logs"] new_Connection)]>
            (<[2 := ptr new_Connection]> ∅))
    (bench_start accept_all).

(** Six batches wait in the sample queue, or five. *)
Definition bench_deep : @Server (bench accept_all) :=
  with_IQdataQueue (repeat {| data := [] |} 6) (bench_7 accept_all).

Definition bench_shallow : @Server (bench accept_all) :=
  with_IQdataQueue (repeat {| data := [] |} 5) (bench_7 accept_all).

Definition idle_poll : lws_service_run := {| callbacks := []; service_result := 0 |}.

(** A transport that reports a fatal error on every write. *)
Definition reject_all : list Event → Z → string → Z := λ _ _ _, -1.

(** Six batches wait and no connection has attached. *)
Definition bench_unattached : @Server (bench accept_all) :=
  with_IQdataQueue (repeat {| data := [] |} 6) (bench_start accept_all).

(** A poll in which [lws_service] fails. *)
Definition failed_poll : lws_service_run := {| callbacks := []; service_result := -1 |}.

(** Connection 7 attaches, is sent "A", and the engine polls twice. *)
Definition bench_calls : list call :=
  [call_callback 7 LWS_CALLBACK_ESTABLISHED EmptyString;
   call_send 7 "A";
   call_wait (-1) idle_poll;
   call_turns [idle_poll; idle_poll];
   call_getNumberOfConnections].

(** * Properties *)

Example to_string_samples :
  (to_string 0, to_string (-5), to_string 512) = ("0", "-5", "512")%string.
Proof. reflexivity. Qed.

Example stoi_samples :
  (stoi " 42abc", stoi "-7", stoi "hello", stoi "99999999999")
  = (Ok 42, Ok (-7), Throw (invalid_argument "stoi"), Throw (out_of_range "stoi")).
Proof. reflexivity. Qed.

(** 2.75 truncates to 2 and -2.75 to -2. *)
Example int_of_float_samples :
  (int_of_float (S754_finite false 11 (-2)), int_of_float (S754_finite true 11 (-2)),
   int_of_float (S754_finite false 3 4), int_of_float (S754_infinity true))
  = (Ok 2, Ok (-2), Ok 48, Fault).
Proof. reflexivity. Qed.

(** ** The monad *)

Section Monad_facts.
Context {E : Externals}.

Lemma bind_ok {A B} (m : M A) (f : A → M B) s a s' :
  m s = (Ok a, s') → (m ≫= f) s = f a s'.
Proof. unfold mbind, M_bind. by intros ->. Qed.

Lemma bind_throw {A B} (m : M A) (f : A → M B) s e s' :
  m s = (Throw e, s') → (m ≫= f) s = (Throw e, s').
Proof. unfold mbind, M_bind. by intros ->. Qed.

Lemma bind_fault {A B} (m : M A) (f : A → M B) s s' :
  m s = (Fault, s') → (m ≫= f) s = (Fault, s').
Proof. unfold mbind, M_bind. by intros ->. Qed.

Lemma with_connections_compose f g (s : Server) :
  with_connections f (with_connections g s) = with_connections (f ∘ g) s.
Proof. by destruct s. Qed.

Lemma with_connections_ext f g (s : Server) :
  f (connections s) = g (connections s) → with_connections f s = with_connections g s.
Proof. unfold with_connections. by intros ->. Qed.

Lemma with_connections_id (s : Server) f :
  f (connections s) = connections s → with_connections f s = s.
Proof. destruct s; unfold with_connections; simpl. by intros ->. Qed.

Lemma for_each_app {A} (l1 l2 : list A) (body : A → M unit) s s' :
  for_each l1 body s = (Ok (), s') →
  for_each (l1 ++ l2) body s = for_each l2 body s'.
Proof.
  revert s. induction l1 as [|x l1 IH]; intros s; simpl.
  - by intros [= ->].
  - unfold mbind, M_bind. destruct (body x s) as [[[]| |] s1]; try done.
    apply IH.
Qed.

End Monad_facts.

(** ** The registry and [broadcast_log] *)

Section Registry_facts.
Context {E : Externals}.

Lemma entries_perm (m : gmap Z ConnPtr) : entries m ≡ₚ map_to_list m.
Proof. apply merge_sort_Permutation. Qed.

Lemma elem_of_entries (m : gmap Z ConnPtr) id p :
  (id, p) ∈ entries m ↔ m !! id = Some p.
Proof. by rewrite entries_perm, elem_of_map_to_list. Qed.

Lemma NoDup_entries (m : gmap Z ConnPtr) : NoDup (entries m).*1.
Proof. rewrite entries_perm. apply NoDup_fst_map_to_list. Qed.

Lemma all_live_lookup (m : gmap Z ConnPtr) id p :
  all_live m → m !! id = Some p → ∃ c, p = ptr c.
Proof.
  intros Hm Hp. specialize (Hm id p Hp). destruct p; [done | eauto].
Qed.

Lemma log_loop_run data (l : list (Z * ConnPtr)) (s : Server) :
  Forall (λ e, is_live e.2 = true) l →
  for_each l (λ id_and_connection,
    c ← deref id_and_connection.2;
    if hasPermission "logs" c
    then store id_and_connection.1 (push_to_buffer data c)
    else mret ()) s
  = (Ok (), with_connections (λ m, foldl (log_step data) m l) s).
Proof.
  intros Hl. revert s. induction Hl as [|[id p] l Hp _ IH]; intros s.
  - simpl. unfold mret, M_ret. by rewrite with_connections_id.
  - destruct p as [|c]; [done|]. simpl.
    unfold log_step at 2; simpl.
    unfold mbind, M_bind, deref, mret, M_ret, store, modify; simpl.
    destruct (hasPermission "logs" c).
    + rewrite IH, with_connections_compose. done.
    + rewrite IH. done.
Qed.

Lemma log_loop_lookup data (l : list (Z * ConnPtr)) (m : gmap Z ConnPtr) i :
  NoDup l.*1 →
  (∀ id p, (id, p) ∈ l → m !! id = Some p) →
  foldl (log_step data) m l !! i
  = if decide (i ∈ l.*1) then log_to data <$> m !! i else m !! i.
Proof.
  revert m. induction l as [|[id p] l IH]; intros m Hnd Hm; simpl.
  - done.
  - apply NoDup_cons in Hnd as [Hid Hnd].
    assert (Hp : m !! id = Some p) by (apply Hm; left).
    assert (Hstep : ∀ j, j ≠ id → log_step data m (id, p) !! j = m !! j).
    { intros j Hj. unfold log_step; simpl. destruct p as [|c]; [done|].
      destruct (hasPermission "logs" c); [|done]. by rewrite lookup_insert_ne. }
    assert (Hhead : log_step data m (id, p) !! id = log_to data <$> m !! id).
    { rewrite Hp. unfold log_step; simpl. destruct p as [|c]; simpl; [done|].
      destruct (hasPermission "logs" c); [|done]. by rewrite lookup_insert_eq. }
    rewrite IH; [|done|].
    + destruct (decide (i = id)) as [->|Hne].
      * rewrite decide_False by done. rewrite decide_True by left. done.
      * rewrite Hstep by done.
        case_decide as Hi; case_decide as Hi'; try done.
        -- exfalso. apply Hi'. by right.
        -- exfalso. apply elem_of_cons in Hi' as [?|?]; done.
    + intros j q Hj. rewrite Hstep; [apply Hm; by right|].
      intros ->. apply Hid. apply list_elem_of_fmap. by exists (id, q).
Qed.

Lemma log_fold_entries data (m : gmap Z ConnPtr) :
  foldl (log_step data) m (entries m) = log_to data <$> m.
Proof.
  apply map_eq; intros i.
  rewrite log_loop_lookup.
  - rewrite lookup_fmap. case_decide as Hi; [done|].
    destruct (m !! i) as [p|] eqn:Hp; [|done].
    exfalso. apply Hi. apply list_elem_of_fmap. exists (i, p).
    split; [done|]. by apply elem_of_entries.
  - apply NoDup_entries.
  - intros id p. apply elem_of_entries.
Qed.

Lemma broadcast_log_live data (s : Server) :
  all_live (connections s) →
  broadcast_log data s = (Ok (), with_connections (fmap (log_to data)) s).
Proof.
  intros Hs. unfold broadcast_log.
  erewrite bind_ok by reflexivity.
  rewrite log_loop_run.
  - f_equal. apply with_connections_ext, log_fold_entries.
  - apply Forall_forall. intros [id p] Hp. apply elem_of_entries in Hp.
    by apply (Hs id p).
Qed.

Lemma all_live_log_to data (m : gmap Z ConnPtr) :
  all_live m → all_live (log_to data <$> m).
Proof.
  intros Hm id p. rewrite lookup_fmap. destruct (m !! id) as [q|] eqn:Hq; [|done].
  intros [= <-]. specialize (Hm id q Hq). by destruct q.
Qed.

End Registry_facts.

(** ** Logging *)

Section Log_facts.
Context {E : Externals}.

Lemma LOG_TEST_live lvl payload (s : Server) :
  all_live (connections s) →
  LOG_TEST lvl payload s = (Ok (), logged lvl payload s).
Proof.
  intros Hs. unfold LOG_TEST, logged, log_line.
  erewrite bind_ok by reflexivity.
  erewrite bind_ok by reflexivity.
  destruct (should_log lvl).
  - rewrite broadcast_log_live by done. done.
  - unfold mret, M_ret. f_equal. symmetry. apply with_connections_id.
    apply map_fmap_id.
Qed.

Lemma log_line_live lvl payload t p : is_live (log_line lvl payload t p) = is_live p.
Proof. unfold log_line. destruct (should_log lvl), p; done. Qed.

Lemma logged_lookup lvl payload (s : Server) id :
  connections (logged lvl payload s) !! id
  = log_line lvl payload (trace s) <$> connections s !! id.
Proof. unfold logged; simpl. apply lookup_fmap. Qed.

Lemma logged_all_live lvl payload (s : Server) :
  all_live (connections s) → all_live (connections (logged lvl payload s)).
Proof.
  intros Hs id p. rewrite logged_lookup.
  destruct (connections s !! id) as [q|] eqn:Hq; [|done].
  intros [= <-]. rewrite log_line_live. by apply (Hs id q).
Qed.

Lemma logged_trace lvl payload (s : Server) :
  trace (logged lvl payload s) = trace s ++ [EvLog lvl payload].
Proof. done. Qed.

Lemma logged_socketsOn lvl payload (s : Server) :
  m_socketsOn (logged lvl payload s) = m_socketsOn s.
Proof. done. Qed.

(** A connection without permissions is not touched by a log record. *)
Lemma log_line_no_permission lvl payload t c :
  permissions c = [] → log_line lvl payload t (ptr c) = ptr c.
Proof.
  intros Hc. unfold log_line, log_to, hasPermission. rewrite Hc; simpl.
  by destruct (should_log lvl).
Qed.

End Log_facts.

(** ** Connection life cycle *)

Section Lifecycle_facts.
Context {E : Externals}.

Lemma removeConnection_eq socketID (s : Server) :
  _removeConnection socketID s = (Ok (), with_connections (delete socketID) s).
Proof.
  unfold _removeConnection, connections_at, mbind, M_bind, modify.
  destruct (connections s !! socketID) eqn:Hid; [done|].
  rewrite with_connections_compose. f_equal.
  apply with_connections_ext; simpl. apply delete_insert_eq.
Qed.

Lemma removeConnection_absent socketID (s : Server) :
  connections s !! socketID = None → _removeConnection socketID s = (Ok (), s).
Proof.
  intros Hid. rewrite removeConnection_eq. f_equal.
  apply with_connections_id. by apply delete_id.
Qed.

Lemma all_live_insert (m : gmap Z ConnPtr) id c :
  all_live m → all_live (<[id := ptr c]> m).
Proof. intros Hm. by apply map_Forall_insert_2. Qed.

Lemma all_live_delete (m : gmap Z ConnPtr) id :
  all_live m → all_live (delete id m).
Proof. intros Hm. by apply map_Forall_delete. Qed.

Lemma onConnectWrapper_live socketID (s : Server) :
  all_live (connections s) →
  onConnectWrapper socketID s = (Ok (), connected socketID s).
Proof.
  intros Hs. unfold onConnectWrapper, connected.
  erewrite bind_ok by reflexivity.
  erewrite bind_ok by reflexivity.
  erewrite bind_ok by reflexivity.
  simpl. unfold wsSpectrogram_onConnect, LOG_TEST_INFO.
  erewrite bind_ok; [done|].
  apply LOG_TEST_live. simpl. by apply all_live_insert.
Qed.

Lemma onDisconnectWrapper_live socketID (s : Server) :
  all_live (connections s) →
  onDisconnectWrapper socketID s = (Ok (), disconnected socketID s).
Proof.
  intros Hs. unfold onDisconnectWrapper, disconnected.
  erewrite bind_ok by reflexivity.
  simpl. unfold wsSpectrogram_onDisconnect, LOG_TEST_INFO.
  erewrite bind_ok; [apply removeConnection_eq|].
  erewrite bind_ok; [done|].
  by apply LOG_TEST_live.
Qed.

Lemma connected_lookup socketID (s : Server) :
  connections (connected socketID s) !! socketID = Some (ptr (fresh_connection s)).
Proof.
  unfold connected. simpl. rewrite lookup_fmap, lookup_insert_eq. simpl.
  f_equal. by apply log_line_no_permission.
Qed.

Lemma connected_all_live socketID (s : Server) :
  all_live (connections s) → all_live (connections (connected socketID s)).
Proof.
  intros Hs. unfold connected.
  change (all_live (connections (logged lvl_info
    ("wsSpectrogram::onConnect() socketID # " +:+ to_string socketID +:+ " ")
    (with_trace (λ t, t ++ [EvOnConnect socketID])
       (with_connections (<[socketID := ptr (fresh_connection s)]>) s))))).
  apply logged_all_live. simpl. by apply all_live_insert.
Qed.

Lemma disconnected_all_live socketID (s : Server) :
  all_live (connections s) → all_live (connections (disconnected socketID s)).
Proof.
  intros Hs. unfold disconnected.
  change (all_live (delete socketID (connections (logged lvl_info
    ("wsSpectrogram::onDisconnect() socketID # " +:+ to_string socketID +:+ " ")
    (with_trace (λ t, t ++ [EvOnDisconnect socketID]) s))))).
  apply all_live_delete, logged_all_live. done.
Qed.

End Lifecycle_facts.

(** ** The gate flag [m_socketsOn] *)

Section Gate_facts.
Context {E : Externals}.

Lemma deliver_established fd (s : Server) :
  all_live (connections s) →
  deliver (Established fd) s
  = (Ok (), with_trace (λ t, t ++ [EvCallbackOnWritable fd]) (connected fd s)).
Proof.
  intros Hs. unfold deliver, callback_main.
  erewrite bind_ok; [done|].
  erewrite bind_ok; [done|].
  erewrite bind_ok; [done|].
  by apply onConnectWrapper_live.
Qed.

Lemma deliver_closed fd (s : Server) :
  all_live (connections s) →
  deliver (Closed fd) s = (Ok (), disconnected fd s).
Proof.
  intros Hs. unfold deliver, callback_main.
  erewrite bind_ok; [done|].
  erewrite bind_ok; [done|].
  by apply onDisconnectWrapper_live.
Qed.

Lemma deliver_gate_inv e (s : Server) :
  gate_inv s → ∃ s', deliver e s = (Ok (), s') ∧ gate_inv s'.
Proof.
  intros [Hlive Hgate]. destruct e as [fd|fd].
  - eexists. split; [by apply deliver_established|]. split.
    + by apply (connected_all_live fd) in Hlive.
    + intros _. exists fd, (fresh_connection s). apply (connected_lookup fd s).
  - eexists. split; [by apply deliver_closed|]. split.
    + by apply disconnected_all_live.
    + done.
Qed.

Lemma lifecycle_gate_inv (evs : list lifecycle) (s : Server) :
  gate_inv s → ∃ s', for_each evs deliver s = (Ok (), s') ∧ gate_inv s'.
Proof.
  revert s. induction evs as [|e evs IH]; intros s Hs.
  - by exists s.
  - destruct (deliver_gate_inv e s Hs) as (s1 & He & Hs1).
    destruct (IH s1 Hs1) as (s2 & Hevs & Hs2).
    exists s2. split; [|done]. simpl. by erewrite bind_ok.
Qed.

Lemma gate_inv_constructed queue rxFreq span : gate_inv (constructed queue rxFreq span).
Proof. split; [apply map_Forall_empty | done]. Qed.

(** With the gate closed, a turn of the producer leaves every connection
    as it was. *)
Lemma run_body_gate_closed (s : Server) :
  m_socketsOn s = false → connections (run_body s).2 = connections s.
Proof.
  destruct s as [conns on stop queue out rx sp msg tr]; simpl. intros ->.
  unfold run_body, mbind, M_bind, modify, get, queue_pop; simpl.
  destruct (5 <? queue_size queue); [|done].
  by destruct queue as [|batch rest].
Qed.

(** C5, as the code has it.  After any sequence of connect and disconnect
    callbacks on a freshly constructed server: the callbacks all return; if
    the gate flag is set then at least one connection is attached; and with
    the flag clear a turn of the producer broadcasts nothing.  So the
    producer broadcasts only when some connection can receive the message. *)
Theorem C5_gate_set_implies_attached
    (evs : list lifecycle) (queue : list RadioThreadIQData) (rxFreq span : Freq) :
  let out := for_each evs deliver (constructed queue rxFreq span) in
  out.1 = Ok ()
  ∧ (m_socketsOn out.2 = true → attached out.2)
  ∧ (m_socketsOn out.2 = false → connections (run_body out.2).2 = connections out.2).
Proof.
  destruct (lifecycle_gate_inv evs _ (gate_inv_constructed queue rxFreq span))
    as (s' & Hrun & _ & Hgate).
  simpl. rewrite Hrun; simpl.
  split; [done|]. split; [done|]. apply run_body_gate_closed.
Qed.

End Gate_facts.

(** ** [send], [getValue], [broadcast_log], registration *)

Section Api_facts.
Context {E : Externals}.

Lemma send_live socketID data (s : Server) c :
  connections s !! socketID = Some (ptr c) →
  send socketID data s
  = (Ok (), with_connections (<[socketID := ptr (push_to_buffer data c)]>) s).
Proof.
  intros Hid. unfold send, connections_at, mbind, M_bind. by rewrite Hid.
Qed.

(** [send] to an identifier the registry does not hold: [operator[]]
    creates the slot with a null pointer, and [push_to_buffer] is called
    through it. *)
Lemma send_unknown socketID data (s : Server) :
  connections s !! socketID = None →
  send socketID data s = (Fault, with_connections (<[socketID := nullptr]>) s).
Proof.
  intros Hid. unfold send, connections_at, mbind, M_bind. by rewrite Hid.
Qed.

Lemma hasPermission_elem_of permission c :
  hasPermission permission c = true ↔ permission ∈ permissions c.
Proof.
  unfold hasPermission. rewrite existsb_exists. split.
  - intros (x & Hx & Heq). apply String.eqb_eq in Heq as ->.
    by apply list_elem_of_In.
  - intros Hp. exists permission. split; [by apply list_elem_of_In|].
    apply String.eqb_refl.
Qed.

(** C8.  On a registry of live connections [broadcast_log data] returns,
    changes nothing but connection objects, appends [data] to the queue of
    every connection that holds the permission "logs", and leaves every
    other connection, one without any permission included, exactly as it
    was; it neither adds nor removes a slot. *)
Theorem C8_broadcast_log_by_permission (data : string) (s : Server) :
  all_live (connections s) →
  ∃ s', broadcast_log data s = (Ok (), s')
    ∧ s' = with_connections (λ _, connections s') s
    ∧ (∀ id, connections s' !! id = None ↔ connections s !! id = None)
    ∧ (∀ id c, connections s !! id = Some (ptr c) →
         ("logs" ∈ permissions c →
            ∃ c', connections s' !! id = Some (ptr c')
              ∧ buffer c' = buffer c ++ [data]
              ∧ c' = push_to_buffer data c)
         ∧ ("logs" ∉ permissions c → connections s' !! id = Some (ptr c))
         ∧ (permissions c = [] → connections s' !! id = Some (ptr c))).
Proof.
  intros Hs. eexists. split; [by apply broadcast_log_live|].
  split; [by destruct s|]. split.
  - intros id. simpl. rewrite lookup_fmap. by destruct (connections s !! id).
  - intros id c Hid. simpl. rewrite lookup_fmap, Hid. simpl.
    assert (Hno : "logs" ∉ permissions c →
                  Some (ptr (if hasPermission "logs" c
                             then push_to_buffer data c else c)) = Some (ptr c)).
    { intros Hp. destruct (hasPermission "logs" c) eqn:Hperm; [|done].
      by apply hasPermission_elem_of in Hperm. }
    split; [|split].
    + intros Hp. apply hasPermission_elem_of in Hp. rewrite Hp. eauto.
    + done.
    + intros Hnil. apply Hno. rewrite Hnil. apply not_elem_of_nil.
Qed.

(** A key that is present is read without any change to the object. *)
Lemma getValue_present socketID name (s : Server) c v :
  connections s !! socketID = Some (ptr c) →
  keyValueMap c !! name = Some v →
  getValue socketID name s = (Ok v, s).
Proof.
  intros Hid Hkey.
  unfold getValue, connections_at, mbind, M_bind, Connection_index.
  rewrite Hid; simpl. rewrite Hkey; simpl. unfold mret, M_ret. f_equal.
  apply with_connections_id. by apply insert_id.
Qed.

(** C9.  [getValue] of a key the connection does not hold returns the empty
    string and leaves the key in the attribute map, bound to the empty
    string: the object after the call differs from the object before. *)
Theorem C9_getValue_absent_key_inserts socketID name (s : Server) c :
  connections s !! socketID = Some (ptr c) →
  keyValueMap c !! name = None →
  getValue socketID name s
  = (Ok EmptyString,
     with_connections
       (<[socketID := ptr (with_keyValueMap (<[name := EmptyString]> (keyValueMap c)) c)]>) s)
  ∧ (∃ c', connections (getValue socketID name s).2 !! socketID = Some (ptr c')
         ∧ keyValueMap c' !! name = Some EmptyString
         ∧ keyValueMap c' = <[name := EmptyString]> (keyValueMap c)
         ∧ buffer c' = buffer c ∧ permissions c' = permissions c)
  ∧ (getValue socketID name s).2 ≠ s.
Proof.
  intros Hid Hkey.
  assert (Hrun : getValue socketID name s
    = (Ok EmptyString,
       with_connections
         (<[socketID := ptr (with_keyValueMap (<[name := EmptyString]> (keyValueMap c)) c)]>) s)).
  { unfold getValue, connections_at, mbind, M_bind, Connection_index.
    rewrite Hid; simpl. by rewrite Hkey. }
  rewrite Hrun. split; [done|]. split.
  - eexists. simpl. rewrite lookup_insert_eq. split; [done|]. simpl.
    by rewrite lookup_insert_eq.
  - simpl. intros Heq. apply (f_equal (λ s, connections s !! socketID)) in Heq.
    simpl in Heq. rewrite lookup_insert_eq, Hid in Heq.
    injection Heq as Heq. apply (f_equal (λ c, keyValueMap c !! name)) in Heq.
    simpl in Heq. by rewrite lookup_insert_eq, Hkey in Heq.
Qed.

(** C4, as the code has it.  [onConnectWrapper], the registration, never
    fails: the slot of [socketID] receives a fresh connection whether or
    not the identifier was present, so a connection already there is
    overwritten.  [_removeConnection], the removal, never fails either: for
    an identifier that is absent it returns and the object is unchanged. *)
Theorem C4_register_overwrites_unregister_ignores socketID (s : Server) :
  all_live (connections s) →
  (onConnectWrapper socketID s).1 = Ok ()
  ∧ connections (onConnectWrapper socketID s).2 !! socketID
    = Some (ptr {| buffer := []; keyValueMap := ∅; permissions := [];
                   user := EmptyString; createTime := time_now (trace s) |})
  ∧ (connections s !! socketID = None → _removeConnection socketID s = (Ok (), s)).
Proof.
  intros Hs. rewrite onConnectWrapper_live by done.
  split; [done|]. split.
  - apply connected_lookup.
  - apply removeConnection_absent.
Qed.

End Api_facts.

(** ** The drain loop *)

Section Drain_facts.
Context {E : Externals}.

Lemma with_trace_compose f g (s : Server) :
  with_trace f (with_trace g s) = with_trace (f ∘ g) s.
Proof. by destruct s. Qed.

Lemma with_trace_ext f g (s : Server) :
  f (trace s) = g (trace s) → with_trace f s = with_trace g s.
Proof. unfold with_trace. by intros ->. Qed.

Lemma with_trace_id (s : Server) f : f (trace s) = trace s → with_trace f s = s.
Proof. destruct s; unfold with_trace; simpl. by intros ->. Qed.

Lemma onErrorWrapper_live socketID message (s : Server) :
  all_live (connections s) →
  onErrorWrapper socketID message s = (Ok (), errored socketID message s).
Proof.
  intros Hs. unfold onErrorWrapper, errored, LOG_TEST_DEBUG.
  erewrite bind_ok by (by apply LOG_TEST_live).
  erewrite bind_ok by reflexivity.
  simpl. unfold wsSpectrogram_onError, LOG_TEST_ERROR.
  erewrite bind_ok; [apply removeConnection_eq|].
  apply LOG_TEST_live. by apply logged_all_live.
Qed.

Lemma errored_lookup socketID message (s : Server) :
  connections (errored socketID message s) !! socketID = None.
Proof. unfold errored; simpl. apply lookup_delete_eq. Qed.

Lemma errored_trace socketID message (s : Server) :
  trace (errored socketID message s)
  = trace s ++ [EvLog lvl_debug
                  ("Error: " +:+ message +:+ " on socketID '" +:+ to_string socketID +:+ "'");
                EvOnError socketID message;
                EvLog lvl_error
                  ("wsSpectrogram::onError() socketID # " +:+ to_string socketID
                   +:+ " - " +:+ message +:+ " ")].
Proof. unfold errored; simpl. by rewrite <- !app_assoc. Qed.

(** Sends that the loop takes as complete: the loop goes on with what is
    left of its local list.  Only the event log of the object changes. *)
Lemma drain_app fd (sent rest : list string) (s : Server) :
  all_sent fd (trace s) sent = true →
  drain fd (sent ++ rest) s
  = drain fd rest (with_trace (λ t, t ++ writes fd t sent) s).
Proof.
  revert s. induction sent as [|message sent IH]; intros s Hsent.
  - simpl. f_equal. symmetry. apply with_trace_id. apply app_nil_r.
  - simpl in Hsent. apply andb_true_iff in Hsent as [Hhead Hsent].
    apply negb_true_iff in Hhead.
    change ((message :: sent) ++ rest) with (message :: (sent ++ rest)).
    cbn [drain]. unfold mbind at 1, M_bind at 1. unfold do_lws_write at 1.
    fold (charsSent fd (trace s) message). rewrite Hhead.
    rewrite IH by done. rewrite with_trace_compose. f_equal.
    apply with_trace_ext. simpl. unfold write_event. by rewrite <- app_assoc.
Qed.

Lemma drain_all_sent fd (messages : list string) (s : Server) :
  all_sent fd (trace s) messages = true →
  drain fd messages s = (Ok (), with_trace (λ t, t ++ writes fd t messages) s).
Proof.
  intros Hsent. rewrite <- (app_nil_r messages) at 1.
  by rewrite drain_app.
Qed.

(** A send that returns a count below [msgLen]. *)
Lemma drain_short_write fd message (rest : list string) (s : Server) :
  all_live (connections s) →
  0 ≤ charsSent fd (trace s) message < Z.of_nat (strlen message) →
  drain fd (message :: rest) s
  = (Ok (),
     errored fd "Error writing to socket"
       (with_trace (λ t, t ++ [write_event fd t message;
                               EvCout ("check check " +:+ to_string fd +:+ " "
                                       +:+ to_string (Z.of_nat (length (message :: rest)))
                                       +:+ endl)])
          s)).
Proof.
  intros Hs Hshort.
  cbn [drain]. unfold mbind at 1, M_bind at 1. unfold do_lws_write at 1.
  fold (charsSent fd (trace s) message).
  assert (Hlt : (to_size_t (charsSent fd (trace s) message)
                 <? Z.of_nat (strlen message)) = true).
  { apply Z.ltb_lt. unfold to_size_t. rewrite Z.mod_small; [lia|].
    unfold charsSent, to_int in *.
    pose proof (Z.mod_pos_bound (lws_write (trace s) fd (bytes message (strlen message))
                                 + 2 ^ 31) (2 ^ 32)). lia. }
  rewrite Hlt.
  erewrite bind_ok by reflexivity.
  rewrite onErrorWrapper_live by done.
  f_equal. f_equal. unfold emit, modify; simpl.
  rewrite with_trace_compose. apply with_trace_ext. simpl.
  by rewrite <- app_assoc.
Qed.

(** A writable event whose sends all complete: the messages go to the
    transport in queue order, and the queue of the connection is the one
    it was (the loop pops from its copy). *)
Lemma writeable_all_sent fd (s : Server) c :
  connections s !! fd = Some (ptr c) →
  all_sent fd (trace s) (buffer c) = true →
  callback_main fd LWS_CALLBACK_SERVER_WRITEABLE EmptyString s
  = (Ok 0, with_trace (λ t, t ++ writes fd t (buffer c) ++ [EvCallbackOnWritable fd]) s).
Proof.
  intros Hid Hsent. unfold callback_main, connections_at.
  unfold mbind, M_bind. rewrite Hid. simpl. unfold getBuffer.
  rewrite drain_all_sent by done.
  unfold lws_callback_on_writable, emit, modify, mret, M_ret.
  rewrite with_trace_compose. f_equal. apply with_trace_ext. simpl.
  by rewrite <- app_assoc.
Qed.

(** X18.  The connection [fd] is live and queues [sent ++ message :: rest].
    On a writable event the sends of [sent] complete and the send of
    [message] returns a count that is not negative and is below the
    length [strlen] gives for [message].  Then the callback returns, [fd]
    is no longer in the registry, and the events of the callback are, in
    order: the writes of [sent] and of [message], the console line, the
    call of [onError] between its two log records, and the request for
    the next writable event.  No message of [rest] is written.  A negative
    return is outside this statement: [drain_negative_return] shows what
    the loop does with it. *)
Theorem short_write_closes_connection
    fd (s : Server) c (sent : list string) (message : string) (rest : list string) :
  all_live (connections s) →
  connections s !! fd = Some (ptr c) →
  buffer c = sent ++ message :: rest →
  all_sent fd (trace s) sent = true →
  0 ≤ charsSent fd (trace s ++ writes fd (trace s) sent) message
    < Z.of_nat (strlen message) →
  ∃ s', callback_main fd LWS_CALLBACK_SERVER_WRITEABLE EmptyString s = (Ok 0, s')
    ∧ connections s' !! fd = None
    ∧ (∀ id, id ≠ fd → connections s' !! id = None ↔ connections s !! id = None)
    ∧ trace s'
      = trace s ++ writes fd (trace s) sent
        ++ [write_event fd (trace s ++ writes fd (trace s) sent) message;
            EvCout ("check check " +:+ to_string fd +:+ " "
                    +:+ to_string (Z.of_nat (length (message :: rest))) +:+ endl);
            EvLog lvl_debug
              ("Error: Error writing to socket on socketID '" +:+ to_string fd +:+ "'");
            EvOnError fd "Error writing to socket";
            EvLog lvl_error
              ("wsSpectrogram::onError() socketID # " +:+ to_string fd
               +:+ " - Error writing to socket ");
            EvCallbackOnWritable fd].
Proof.
  intros Hs Hid Hbuf Hsent Hshort.
  eexists. split.
  - unfold callback_main, connections_at.
    unfold mbind, M_bind. rewrite Hid. simpl. unfold getBuffer. rewrite Hbuf.
    rewrite drain_app by done.
    rewrite drain_short_write; [reflexivity|done|done].
  - split; [|split].
    + simpl. apply lookup_delete_eq.
    + intros id Hne. simpl. rewrite lookup_delete_ne by done.
      rewrite !lookup_fmap. by destruct (connections s !! id).
    + simpl. rewrite <- !app_assoc. done.
Qed.

End Drain_facts.

(** ** The spectrum message *)

Section Spectrum_facts.
Context {E : Externals}.

Lemma string_app_cons x (a b : string) : String x a +:+ b = String x (a +:+ b).
Proof. done. Qed.

Lemma string_app_assoc (a b c : string) : (a +:+ b) +:+ c = a +:+ (b +:+ c).
Proof. induction a as [|x a IH]; [done|]. by rewrite !string_app_cons, IH. Qed.

Lemma string_app_nil_r (a : string) : a +:+ EmptyString = a.
Proof. induction a as [|x a IH]; [done|]. by rewrite string_app_cons, IH. Qed.

Lemma count_char_app c (a b : string) :
  count_char c (a +:+ b) = (count_char c a + count_char c b)%nat.
Proof.
  induction a as [|x a IH]; [done|]. rewrite string_app_cons. simpl.
  destruct (Ascii.eqb x c); simpl; by rewrite IH.
Qed.

Lemma string_of_uint_no_comma d : count_char "," (NilEmpty.string_of_uint d) = O.
Proof. induction d; simpl; done. Qed.

Lemma to_string_no_comma z : count_char "," (to_string z) = O.
Proof.
  unfold to_string, NilZero.string_of_int, NilZero.string_of_uint.
  destruct (Z.to_int z) as [d|d]; destruct d; simpl;
    try done; apply string_of_uint_no_comma.
Qed.

(** Joining strings that hold no comma puts one comma between neighbours. *)
Lemma count_char_concat_cons x (l : list string) :
  Forall (λ x, count_char "," x = O) (x :: l) →
  count_char "," (String.concat "," (x :: l)) = length l.
Proof.
  revert x. induction l as [|y l IH]; intros x Hall.
  - simpl. by apply Forall_cons in Hall as [-> _].
  - apply Forall_cons in Hall as [Hx Hall].
    change (String.concat "," (x :: y :: l))
      with (x +:+ "," +:+ String.concat "," (y :: l)).
    rewrite !count_char_app, Hx, (IH y Hall). done.
Qed.

Lemma count_char_concat (l : list string) :
  Forall (λ x, count_char "," x = O) l →
  count_char "," (String.concat "," l) = (length l - 1)%nat.
Proof.
  destruct l as [|x l]; [done|]. intros Hall.
  rewrite count_char_concat_cons by done. simpl. lia.
Qed.

(** [Z.quot] drops the fractional part: the result is the integer next to
    the value [float_num x / float_den x] on the side of zero. *)
Lemma trunc_toward_zero (x : spec_float) :
  0 < float_den x
  ∧ Z.abs (trunc x) * float_den x ≤ Z.abs (float_num x)
      < (Z.abs (trunc x) + 1) * float_den x
  ∧ 0 ≤ trunc x * float_num x.
Proof.
  assert (Hden : 0 < float_den x).
  { destruct x; simpl; first [lia | apply Z.pow_pos_nonneg; lia]. }
  split; [done|]. unfold trunc.
  set (n := float_num x) in *. set (d := float_den x) in *.
  pose proof (Z.quot_rem' n d) as Hqr.
  pose proof (Z.rem_bound_abs n d ltac:(lia)) as Hr.
  pose proof (Z.rem_sign_mul n d ltac:(lia)) as Hsign.
  pose proof (Z.quot_rem' (Z.abs n) d) as Habs.
  destruct (Z.le_ge_cases 0 n) as [Hn|Hn].
  - pose proof (Z.quot_pos n d Hn Hden).
    pose proof (Z.rem_bound_pos n d Hn Hden).
    split; nia.
  - assert (Hq : Z.quot n d = - Z.quot (- n) d).
    { rewrite Z.quot_opp_l by lia. lia. }
    pose proof (Z.quot_pos (- n) d ltac:(lia) Hden).
    pose proof (Z.rem_bound_pos (- n) d ltac:(lia) Hden).
    pose proof (Z.quot_rem' (- n) d).
    split; nia.
Qed.

Lemma with_msgSOCKET_compose f g (s : Server) :
  with_msgSOCKET f (with_msgSOCKET g s) = with_msgSOCKET (f ∘ g) s.
Proof. by destruct s. Qed.

Lemma with_msgSOCKET_ext f g (s : Server) :
  f (m_msgSOCKET s) = g (m_msgSOCKET s) → with_msgSOCKET f s = with_msgSOCKET g s.
Proof. unfold with_msgSOCKET. by intros ->. Qed.

Lemma int_of_float_castable x : castable x = true → int_of_float x = Ok (trunc x).
Proof. unfold castable, int_of_float. by intros ->. Qed.

(** The loop over the bins, on any range of indices. *)
Lemma psd_loop_run (last : nat) (sp_psd : nat → spec_float) (l : list nat) (s : Server) :
  Forall (λ i, castable (sp_psd i) = true) l →
  for_each l (λ i,
    p ← lift (int_of_float (sp_psd i));
    put (to_string p);;
    if (i <? last)%nat then put "," else mret ()) s
  = (Ok (), with_msgSOCKET (λ m, m +:+ concat_all (map (psd_item last sp_psd) l)) s).
Proof.
  intros Hl. revert s. induction Hl as [|i l Hi _ IH]; intros s.
  - simpl. unfold mret, M_ret. f_equal.
    destruct s; unfold with_msgSOCKET; simpl. by rewrite string_app_nil_r.
  - cbn [for_each]. unfold mbind at 1, M_bind at 1.
    rewrite (int_of_float_castable _ Hi).
    unfold mbind at 1, M_bind at 1, lift at 1.
    unfold mbind at 1, M_bind at 1, put at 1, modify at 1.
    unfold psd_item at 1. cbn [map concat_all foldr].
    destruct (i <? last)%nat.
    + unfold put at 1, modify at 1. rewrite IH.
      rewrite !with_msgSOCKET_compose. f_equal. apply with_msgSOCKET_ext.
      simpl. by rewrite !string_app_assoc.
    + unfold mret at 1, M_ret at 1. rewrite IH.
      rewrite !with_msgSOCKET_compose. f_equal. apply with_msgSOCKET_ext.
      simpl. by rewrite !string_app_assoc.
Qed.

(** With the comma left out after the last index, the items of a range
    that ends at [last] are the comma-joined list. *)
Lemma concat_items_joined (f : nat → string) (last n a : nat) :
  last = (a + n)%nat →
  concat_all (map (λ i, f i +:+ (if (i <? last)%nat then "," else EmptyString))
                  (seq a (S n)))
  = String.concat "," (map f (seq a (S n))).
Proof.
  revert a. induction n as [|n IH]; intros a Hlast.
  - simpl. replace (a <? last)%nat with false
      by (symmetry; apply Nat.ltb_ge; lia).
    by rewrite !string_app_nil_r.
  - transitivity
      ((f a +:+ (if (a <? last)%nat then "," else EmptyString))
       +:+ concat_all (map (λ i, f i +:+ (if (i <? last)%nat then "," else EmptyString))
                           (seq (S a) (S n)))); [reflexivity|].
    transitivity (f a +:+ "," +:+ String.concat "," (map f (seq (S a) (S n))));
      [|reflexivity].
    replace (a <? last)%nat with true by (symmetry; apply Nat.ltb_lt; lia).
    rewrite IH by lia. by rewrite string_app_assoc.
Qed.

Lemma write_psd_run (sp_psd : nat → spec_float) (s : Server) :
  (∀ k, (k < 512)%nat → castable (sp_psd k) = true) →
  write_psd sp_psd s
  = (Ok (),
     with_msgSOCKET
       (λ m, m +:+ String.concat "," (map (λ k, to_string (trunc (sp_psd k))) (seq 0 512)))
       s).
Proof.
  intros Hcast. unfold write_psd. rewrite psd_loop_run.
  - f_equal. apply with_msgSOCKET_ext. f_equal.
    change nfft with (S 511). change (S 511 - 1)%nat with 511%nat.
    unfold psd_item.
    apply (concat_items_joined (λ k, to_string (trunc (sp_psd k))) 511 511 0).
    done.
  - apply Forall_forall. intros k Hk. apply Hcast.
    apply elem_of_seq in Hk. unfold nfft in Hk. lia.
Qed.

Lemma write_spectrum_run (x : list liquid_float_complex) (s : Server) :
  (∀ k, (k < 512)%nat → castable (spgramcf_psd nfft x k) = true) →
  write_spectrum x s
  = (Ok (),
     with_msgSOCKET
       (λ _, spectrum_text (put_Freq (m_rxFreq s)) (put_Freq (m_span s))
               (map (λ k, trunc (spgramcf_psd nfft x k)) (seq 0 512)))
       s).
Proof.
  intros Hcast. unfold write_spectrum, spectrum_text.
  rewrite map_map.
  do 9 (erewrite bind_ok by reflexivity).
  erewrite bind_ok by (by apply write_psd_run).
  set (joined := String.concat "," _). clearbody joined.
  unfold put, modify. rewrite !with_msgSOCKET_compose.
  f_equal. apply with_msgSOCKET_ext. unfold compose.
  change (m_rxFreq (with_msgSOCKET _ s)) with (m_rxFreq s).
  change (m_span (with_msgSOCKET _ s)) with (m_span s).
  rewrite !string_app_assoc. reflexivity.
Qed.

(** C6.  Let the estimator leave in each of the 512 bins a value whose
    cast to [int] is defined.  Then the message written to [m_msgSOCKET],
    which is the message handed to [broadcast], is the text of the
    specification: the centre frequency and the span held by the object at
    the call, and under "s" the 512 powers in bin order, printed in
    decimal.  The list has 512 items and its text 511 commas: one between
    neighbours, none after the last.  The power [p] of a bin whose value is
    [v] is the quotient [Z.quot] of the numerator and the denominator of
    [v]: it has the sign of [v] and [|p| <= |v| < |p| + 1], which is [v]
    with its fractional part dropped and not [v] rounded. *)
Theorem C6_spectrum_message_format (x : list liquid_float_complex) (s : Server) :
  (∀ k, (k < 512)%nat → castable (spgramcf_psd nfft x k) = true) →
  let powers := map (λ k, trunc (spgramcf_psd nfft x k)) (seq 0 512) in
  let text := spectrum_text (put_Freq (m_rxFreq s)) (put_Freq (m_span s)) powers in
  nfft = 512%nat
  ∧ write_spectrum x s = (Ok (), with_msgSOCKET (λ _, text) s)
  ∧ send_spectrum x s = broadcast text (with_msgSOCKET (λ _, text) s)
  ∧ length powers = 512%nat
  ∧ count_char "," (String.concat "," (map to_string powers)) = 511%nat
  ∧ (∀ k, (k < 512)%nat →
       let v := spgramcf_psd nfft x k in
       ∃ p, powers !! k = Some p
         ∧ p = Z.quot (float_num v) (float_den v)
         ∧ Z.abs p * float_den v ≤ Z.abs (float_num v) < (Z.abs p + 1) * float_den v
         ∧ 0 ≤ p * float_num v).
Proof.
  intros Hcast powers text.
  assert (Hlen : length powers = 512%nat).
  { unfold powers. by rewrite length_map, length_seq. }
  split; [done|]. split; [by apply write_spectrum_run|]. split; [|split; [done|split]].
  - unfold send_spectrum.
    erewrite bind_ok by (by apply write_spectrum_run).
    erewrite bind_ok by reflexivity. by destruct s.
  - rewrite count_char_concat.
    + by rewrite length_map, Hlen.
    + apply Forall_forall. intros t Ht. apply list_elem_of_fmap in Ht as (z & -> & _).
      apply to_string_no_comma.
  - intros k Hk v. exists (trunc v). split.
    + unfold powers. by rewrite list_lookup_fmap, lookup_seq_lt.
    + split; [done|]. apply trunc_toward_zero.
Qed.

End Spectrum_facts.

(** ** The sample queue and the producer loop *)

Create HintDb keeps.

Section Queue_facts.
Context {E : Externals}.

Lemma keeps_ret {A} (a : A) : keeps_queue (mret a).
Proof. done. Qed.

Lemma keeps_get : keeps_queue get.
Proof. done. Qed.

Lemma keeps_lift {A} (r : Res A) : keeps_queue (lift r).
Proof. done. Qed.

Lemma keeps_bind {A B} (m : M A) (f : A → M B) :
  keeps_queue m → (∀ a, keeps_queue (f a)) → keeps_queue (m ≫= f).
Proof.
  intros Hm Hf s. unfold mbind, M_bind. specialize (Hm s).
  destruct (m s) as [[a| |] s1]; simpl in *; [|done..].
  by rewrite Hf.
Qed.

Lemma keeps_modify (f : Server → Server) :
  (∀ s, m_IQdataQueue (f s) = m_IQdataQueue s) → keeps_queue (modify f).
Proof. intros Hf s. apply Hf. Qed.

Lemma keeps_for_each {A} (l : list A) (body : A → M unit) :
  (∀ x, keeps_queue (body x)) → keeps_queue (for_each l body).
Proof.
  intros Hbody. induction l as [|x l IH]; simpl.
  - apply keeps_ret.
  - apply keeps_bind; [apply Hbody | by intros _].
Qed.

Ltac keeps_step :=
  match goal with
  | |- keeps_queue (_ ≫= _) => apply keeps_bind; [|intros ?]
  | |- keeps_queue (mret _) => apply keeps_ret
  | |- keeps_queue get => apply keeps_get
  | |- keeps_queue (lift _) => apply keeps_lift
  | |- keeps_queue (throw _) => apply keeps_lift
  | |- keeps_queue (modify _) => apply keeps_modify; intros []; reflexivity
  | |- keeps_queue (emit _) => apply keeps_modify; intros []; reflexivity
  | |- keeps_queue (store _ _) => apply keeps_modify; intros []; reflexivity
  | |- keeps_queue (put _) => apply keeps_modify; intros []; reflexivity
  | |- keeps_queue (for_each _ _) => apply keeps_for_each; intros ?
  | |- keeps_queue (if ?c then _ else _) => destruct c
  | |- keeps_queue (match ?x with _ => _ end) => destruct x
  | |- keeps_queue _ => solve [auto with keeps]
  end.

Ltac keeps := repeat keeps_step.

Lemma keeps_connections_at socketID : keeps_queue (connections_at socketID).
Proof. intros s. unfold connections_at. by destruct (connections s !! socketID), s. Qed.
Hint Resolve keeps_connections_at : keeps.

Lemma keeps_deref p : keeps_queue (deref p).
Proof. unfold deref. keeps. Qed.
Hint Resolve keeps_deref : keeps.

Lemma keeps_send socketID data : keeps_queue (send socketID data).
Proof. unfold send. keeps. Qed.
Hint Resolve keeps_send : keeps.

Lemma keeps_broadcast data : keeps_queue (broadcast data).
Proof. unfold broadcast. keeps. Qed.
Hint Resolve keeps_broadcast : keeps.

Lemma keeps_broadcast_log data : keeps_queue (broadcast_log data).
Proof. unfold broadcast_log. keeps. Qed.
Hint Resolve keeps_broadcast_log : keeps.

Lemma keeps_LOG_TEST lvl payload : keeps_queue (LOG_TEST lvl payload).
Proof. unfold LOG_TEST. keeps. Qed.
Hint Resolve keeps_LOG_TEST : keeps.

Lemma keeps_removeConnection socketID : keeps_queue (_removeConnection socketID).
Proof. unfold _removeConnection. keeps. Qed.
Hint Resolve keeps_removeConnection : keeps.

Lemma keeps_onConnectWrapper socketID : keeps_queue (onConnectWrapper socketID).
Proof.
  unfold onConnectWrapper; simpl. unfold wsSpectrogram_onConnect, LOG_TEST_INFO. keeps.
Qed.
Hint Resolve keeps_onConnectWrapper : keeps.

Lemma keeps_onDisconnectWrapper socketID : keeps_queue (onDisconnectWrapper socketID).
Proof.
  unfold onDisconnectWrapper; simpl. unfold wsSpectrogram_onDisconnect, LOG_TEST_INFO. keeps.
Qed.
Hint Resolve keeps_onDisconnectWrapper : keeps.

Lemma keeps_onErrorWrapper socketID message : keeps_queue (onErrorWrapper socketID message).
Proof.
  unfold onErrorWrapper; simpl.
  unfold wsSpectrogram_onError, LOG_TEST_DEBUG, LOG_TEST_ERROR. keeps.
Qed.
Hint Resolve keeps_onErrorWrapper : keeps.

Lemma keeps_onMessage socketID data : keeps_queue (wsSpectrogram_onMessage socketID data).
Proof. unfold wsSpectrogram_onMessage, LOG_TEST_INFO. keeps. Qed.
Hint Resolve keeps_onMessage : keeps.

Lemma keeps_do_lws_write wsi buf : keeps_queue (do_lws_write wsi buf).
Proof. intros s. by destruct s. Qed.
Hint Resolve keeps_do_lws_write : keeps.

Lemma keeps_drain fd (buffer : list string) : keeps_queue (drain fd buffer).
Proof. induction buffer as [|message rest IH]; cbn [drain]; keeps. Qed.
Hint Resolve keeps_drain : keeps.

Lemma keeps_callback_main wsi reason input : keeps_queue (callback_main wsi reason input).
Proof. unfold callback_main, lws_callback_on_writable; simpl. keeps. Qed.
Hint Resolve keeps_callback_main : keeps.

Lemma keeps_wait timeout svc : keeps_queue (wait timeout svc).
Proof. unfold wait. keeps. Qed.
Hint Resolve keeps_wait : keeps.

Lemma keeps_send_spectrum x : keeps_queue (send_spectrum x).
Proof. unfold send_spectrum, write_spectrum, write_psd. keeps. Qed.
Hint Resolve keeps_send_spectrum : keeps.

(** The producer's turn on a shallow queue: nothing but the reset of
    [m_IQdataOut]. *)
Lemma run_body_shallow (s : Server) :
  queue_size (m_IQdataQueue s) ≤ 5 →
  run_body s = (Ok (), with_IQdataOut {| data := [] |} s).
Proof.
  intros Hdepth. unfold run_body.
  erewrite bind_ok by reflexivity. erewrite bind_ok by reflexivity.
  destruct s as [conns on stop queue out rx sp msg tr]; simpl in *.
  by replace (5 <? queue_size queue) with false by (symmetry; apply Z.ltb_ge; lia).
Qed.

(** The producer's turn on a deep queue: the oldest batch leaves the
    queue, and no other. *)
Lemma run_body_deep (s : Server) :
  5 < queue_size (m_IQdataQueue s) →
  ∃ batch rest, m_IQdataQueue s = batch :: rest
    ∧ m_IQdataQueue (run_body s).2 = rest.
Proof.
  intros Hdepth. unfold run_body.
  erewrite bind_ok by reflexivity. erewrite bind_ok by reflexivity.
  destruct s as [conns on stop queue out rx sp msg tr]; simpl in *.
  replace (5 <? queue_size queue) with true by (symmetry; apply Z.ltb_lt; lia).
  destruct queue as [|batch rest]; [done|].
  exists batch, rest. split; [done|].
  erewrite bind_ok by reflexivity. erewrite bind_ok by reflexivity.
  simpl. destruct on.
  - by rewrite keeps_send_spectrum.
  - done.
Qed.

(** C7.  A turn of the producer loop whose poll returns.  If the queue
    holds at most 5 batches, the turn ends with the object as the poll
    left it but for the reset of [m_IQdataOut]: the queue, the
    connections and the event log are untouched, so nothing was popped or
    broadcast.  If it holds more than 5, the queue after the turn is the
    queue before it without its oldest batch: exactly one was popped. *)
Theorem C7_depth_gate (svc : lws_service_run) (s s1 : Server) :
  wait (-1) svc s = (Ok (), s1) →
  (queue_size (m_IQdataQueue s) ≤ 5 →
     run_iteration svc s = (Ok (), with_IQdataOut {| data := [] |} s1)
     ∧ m_IQdataQueue (run_iteration svc s).2 = m_IQdataQueue s
     ∧ connections (run_iteration svc s).2 = connections s1
     ∧ trace (run_iteration svc s).2 = trace s1)
  ∧ (5 < queue_size (m_IQdataQueue s) →
     ∃ batch rest, m_IQdataQueue s = batch :: rest
       ∧ m_IQdataQueue (run_iteration svc s).2 = rest
       ∧ length (m_IQdataQueue (run_iteration svc s).2)
         = (length (m_IQdataQueue s) - 1)%nat).
Proof.
  intros Hwait.
  assert (Hq : m_IQdataQueue s1 = m_IQdataQueue s).
  { pose proof (keeps_wait (-1) svc s) as Hk. by rewrite Hwait in Hk. }
  unfold run_iteration. erewrite bind_ok by exact Hwait.
  split.
  - intros Hdepth. rewrite run_body_shallow by (by rewrite Hq).
    by destruct s1.
  - intros Hdepth.
    destruct (run_body_deep s1) as (batch & rest & Hs1 & Hrest); [by rewrite Hq|].
    exists batch, rest. rewrite <- Hq, Hrest, Hs1. split; [done|]. split; [done|].
    simpl. lia.
Qed.

End Queue_facts.

(** ** [onMessage] *)

Section Message_facts.
Context {E : Externals}.

Lemma index_of_absent c (data : string) :
  ¬ In c (list_ascii_of_string data) → index_of c data = None.
Proof.
  induction data as [|d data IH]; simpl; [done|].
  intros Hin. destruct (Ascii.eqb d c) eqn:Heq.
  - apply Ascii.eqb_eq in Heq. exfalso. apply Hin. by left.
  - rewrite IH; [done|]. intros Hc. apply Hin. by right.
Qed.

Lemma find_first_of_absent c (data : string) :
  ¬ In c (list_ascii_of_string data) → find_first_of data c = npos.
Proof. intros Hin. unfold find_first_of. by rewrite index_of_absent. Qed.

Lemma substring_whole (data : string) : substring 0 (String.length data) data = data.
Proof. induction data as [|d data IH]; simpl; [done | by rewrite IH]. Qed.

Lemma substr_whole (data : string) :
  Z.of_nat (String.length data) ≤ npos → substr data 0 npos = Ok data.
Proof.
  intros Hsize. unfold substr.
  replace (Z.of_nat (String.length data) <? 0) with false
    by (symmetry; apply Z.ltb_ge; lia).
  rewrite Z.min_r by lia. rewrite Z.sub_0_r, Nat2Z.id. simpl Z.to_nat.
  by rewrite substring_whole.
Qed.

(** Without a colon in the payload both tests succeed, [cmd] is the whole
    payload and [stoi] is given the whole payload. *)
Lemma onMessage_without_colon socketID (data : string) (s : Server) :
  Z.of_nat (String.length data) ≤ npos →
  ¬ In ":"%char (list_ascii_of_string data) →
  wsSpectrogram_onMessage socketID data s
  = (LOG_TEST_INFO ("User click: " +:+ data +:+ " ");;
     par ← lift (stoi data);
     LOG_TEST_INFO ("cmd: " +:+ data +:+ " par: " +:+ to_string par +:+ " ")) s.
Proof.
  intros Hsize Hcolon. unfold wsSpectrogram_onMessage.
  rewrite (find_first_of_absent _ _ Hcolon).
  change (0 <? npos) with true. change (to_size_t (npos + 1)) with 0. cbv iota.
  rewrite (substr_whole _ Hsize).
  unfold mbind, M_bind, lift.
  destruct (LOG_TEST_INFO ("User click: " +:+ data +:+ " ") s) as [[[]| |] s1]; [|done..].
  by destruct (stoi data).
Qed.

Lemma onMessage_stoi_throws socketID (data : string) (s : Server) e :
  Z.of_nat (String.length data) ≤ npos →
  ¬ In ":"%char (list_ascii_of_string data) →
  stoi data = Throw e →
  all_live (connections s) →
  wsSpectrogram_onMessage socketID data s
  = (Throw e, logged lvl_info ("User click: " +:+ data +:+ " ") s).
Proof.
  intros Hsize Hcolon Hstoi Hs. rewrite onMessage_without_colon by done.
  unfold LOG_TEST_INFO. erewrite bind_ok by (by apply LOG_TEST_live).
  rewrite Hstoi. done.
Qed.

(** C10.  For a payload without a colon [find_first_of] is [npos], the
    test [> 0] succeeds, and [onMessage] is: log, [stoi] of the whole
    payload, log.  The payload "hello" is such a payload and [stoi] throws
    [invalid_argument] on it; neither [onMessage] nor [callback_main]
    catches it, so the call ends with that exception. *)
Theorem C10_onMessage_without_colon_parses_payload socketID (data : string) (s : Server) :
  Z.of_nat (String.length data) ≤ npos →
  ¬ In ":"%char (list_ascii_of_string data) →
  find_first_of data ":" = npos
  ∧ (0 <? find_first_of data ":") = true
  ∧ wsSpectrogram_onMessage socketID data s
    = (LOG_TEST_INFO ("User click: " +:+ data +:+ " ");;
       par ← lift (stoi data);
       LOG_TEST_INFO ("cmd: " +:+ data +:+ " par: " +:+ to_string par +:+ " ")) s
  ∧ (¬ In ":"%char (list_ascii_of_string "hello")
     ∧ stoi "hello" = Throw (invalid_argument "stoi")
     ∧ (all_live (connections s) →
        (wsSpectrogram_onMessage socketID "hello" s).1 = Throw (invalid_argument "stoi")
        ∧ (callback_main socketID LWS_CALLBACK_RECEIVE "hello" s).1
          = Throw (invalid_argument "stoi"))).
Proof.
  intros Hsize Hcolon.
  assert (Hhello : ¬ In ":"%char (list_ascii_of_string "hello")).
  { simpl. intros [H|[H|[H|[H|[H|[]]]]]]; discriminate H. }
  split; [by apply find_first_of_absent|].
  split; [by rewrite find_first_of_absent|].
  split; [by apply onMessage_without_colon|].
  split; [done|]. split; [done|].
  intros Hs.
  assert (Hrun : ∀ s' : Server, all_live (connections s') →
            wsSpectrogram_onMessage socketID "hello" s'
            = (Throw (invalid_argument "stoi"), logged lvl_info "User click: hello " s')).
  { intros s' Hs'. by apply onMessage_stoi_throws. }
  split; [by rewrite Hrun|].
  unfold callback_main. unfold mbind at 1, M_bind at 1.
  erewrite bind_ok by reflexivity.
  simpl. by rewrite Hrun.
Qed.

End Message_facts.

(** ** The registry holds no null pointer *)

Create HintDb live.

Section Invariant_facts.
Context {E : Externals}.

Lemma live_ret {A} (a : A) : stays_live (mret a).
Proof. by intros s Hs _. Qed.

Lemma live_get : stays_live get.
Proof. by intros s Hs _. Qed.

Lemma live_lift {A} (r : Res A) : stays_live (lift r).
Proof. by intros s Hs _. Qed.

Lemma live_bind {A B} (m : M A) (f : A → M B) :
  stays_live m → (∀ a, stays_live (f a)) → stays_live (m ≫= f).
Proof.
  intros Hm Hf s Hs. unfold mbind, M_bind. specialize (Hm s Hs).
  destruct (m s) as [[a| |] s1]; simpl in *.
  - apply Hf. by apply Hm.
  - intros _. by apply Hm.
  - done.
Qed.

Lemma live_modify (f : Server → Server) :
  (∀ s, all_live (connections s) → all_live (connections (f s))) →
  stays_live (modify f).
Proof. intros Hf s Hs _. by apply Hf. Qed.

Lemma live_for_each {A} (l : list A) (body : A → M unit) :
  (∀ x, stays_live (body x)) → stays_live (for_each l body).
Proof.
  intros Hbody. induction l as [|x l IH]; simpl.
  - apply live_ret.
  - apply live_bind; [apply Hbody | by intros _].
Qed.

(** [connections[socketID]->...]: the slot exists and is live, or the call
    ends in undefined behaviour. *)
Lemma live_at {A} socketID (k : Connection → M A) :
  (∀ c, stays_live (k c)) →
  stays_live (p ← connections_at socketID; c ← deref p; k c).
Proof.
  intros Hk s Hs. unfold mbind, M_bind, connections_at.
  destruct (connections s !! socketID) as [[|c]|] eqn:Hid; simpl; [done| |done].
  by apply Hk.
Qed.

Ltac live_step :=
  match goal with
  | |- stays_live (connections_at _ ≫= _) => apply live_at; intros ?
  | |- stays_live (_ ≫= _) => apply live_bind; [|intros ?]
  | |- stays_live (mret _) => apply live_ret
  | |- stays_live get => apply live_get
  | |- stays_live (lift _) => apply live_lift
  | |- stays_live (throw _) => apply live_lift
  | |- stays_live (store _ _) =>
      apply live_modify; intros [] ?; by apply all_live_insert
  | |- stays_live (modify _) => apply live_modify; intros [] ?; assumption
  | |- stays_live (emit _) => apply live_modify; intros [] ?; assumption
  | |- stays_live (put _) => apply live_modify; intros [] ?; assumption
  | |- stays_live (for_each _ _) => apply live_for_each; intros ?
  | |- stays_live (if ?c then _ else _) => destruct c
  | |- stays_live (match ?x with _ => _ end) => destruct x
  | |- stays_live _ => solve [auto with live]
  end.

Ltac live := repeat live_step.

Lemma live_deref p : stays_live (deref p).
Proof. unfold deref. live. Qed.
Hint Resolve live_deref : live.

Lemma live_send socketID data : stays_live (send socketID data).
Proof. unfold send. live. Qed.
Hint Resolve live_send : live.

Lemma live_broadcast data : stays_live (broadcast data).
Proof. unfold broadcast. live. Qed.
Hint Resolve live_broadcast : live.

Lemma live_setValue socketID name value : stays_live (setValue socketID name value).
Proof. unfold setValue. live. Qed.

Lemma live_getValue socketID name : stays_live (getValue socketID name).
Proof. unfold getValue. live. Qed.

Lemma live_broadcast_log data : stays_live (broadcast_log data).
Proof. unfold broadcast_log. live. Qed.
Hint Resolve live_broadcast_log : live.

Lemma live_LOG_TEST lvl payload : stays_live (LOG_TEST lvl payload).
Proof. unfold LOG_TEST. live. Qed.
Hint Resolve live_LOG_TEST : live.

Lemma live_removeConnection socketID : stays_live (_removeConnection socketID).
Proof.
  intros s Hs _. rewrite removeConnection_eq. simpl. by apply all_live_delete.
Qed.
Hint Resolve live_removeConnection : live.

Lemma live_onConnectWrapper socketID : stays_live (onConnectWrapper socketID).
Proof.
  unfold onConnectWrapper; simpl. unfold wsSpectrogram_onConnect, LOG_TEST_INFO.
  apply live_bind; [apply live_get|]. intros s0.
  apply live_bind; [|intros ?; live].
  apply live_modify. intros [] ?. by apply all_live_insert.
Qed.
Hint Resolve live_onConnectWrapper : live.

Lemma live_onDisconnectWrapper socketID : stays_live (onDisconnectWrapper socketID).
Proof.
  unfold onDisconnectWrapper; simpl. unfold wsSpectrogram_onDisconnect, LOG_TEST_INFO. live.
Qed.
Hint Resolve live_onDisconnectWrapper : live.

Lemma live_onErrorWrapper socketID message : stays_live (onErrorWrapper socketID message).
Proof.
  unfold onErrorWrapper; simpl.
  unfold wsSpectrogram_onError, LOG_TEST_DEBUG, LOG_TEST_ERROR. live.
Qed.
Hint Resolve live_onErrorWrapper : live.

Lemma live_onMessage socketID data : stays_live (wsSpectrogram_onMessage socketID data).
Proof. unfold wsSpectrogram_onMessage, LOG_TEST_INFO. live. Qed.
Hint Resolve live_onMessage : live.

Lemma live_do_lws_write wsi buf : stays_live (do_lws_write wsi buf).
Proof. intros s Hs _. by destruct s. Qed.
Hint Resolve live_do_lws_write : live.

Lemma live_drain fd (buffer : list string) : stays_live (drain fd buffer).
Proof. induction buffer as [|message rest IH]; cbn [drain]; live. Qed.
Hint Resolve live_drain : live.

Lemma live_callback_main wsi reason input : stays_live (callback_main wsi reason input).
Proof. unfold callback_main, lws_callback_on_writable; simpl. live. Qed.
Hint Resolve live_callback_main : live.

Lemma live_wait timeout svc : stays_live (wait timeout svc).
Proof. unfold wait. live. Qed.
Hint Resolve live_wait : live.

Lemma live_send_spectrum x : stays_live (send_spectrum x).
Proof. unfold send_spectrum, write_spectrum, write_psd. live. Qed.
Hint Resolve live_send_spectrum : live.

Lemma live_queue_pop : stays_live queue_pop.
Proof.
  intros s Hs. unfold queue_pop.
  destruct s as [conns on stop queue out rx sp msg tr]; simpl in *.
  by destruct queue.
Qed.
Hint Resolve live_queue_pop : live.

Lemma live_run_body : stays_live run_body.
Proof. unfold run_body. live. Qed.
Hint Resolve live_run_body : live.

Lemma live_run_iteration svc : stays_live (run_iteration svc).
Proof. unfold run_iteration. live. Qed.
Hint Resolve live_run_iteration : live.

(** However many turns the producer loop makes on a freshly constructed
    server, whatever the engine delivers: as long as no call ended in
    undefined behaviour, no slot of the registry holds a null pointer. *)
Lemma run_loop_all_live (schedule : list lws_service_run) : stays_live (run_loop schedule).
Proof. induction schedule as [|svc rest IH]; cbn [run_loop]; live. Qed.

Lemma reachable_all_live (schedule : list lws_service_run) queue rxFreq span :
  (run_loop schedule (constructed queue rxFreq span)).1 ≠ Fault →
  all_live (connections (run_loop schedule (constructed queue rxFreq span)).2).
Proof. apply run_loop_all_live. apply map_Forall_empty. Qed.

End Invariant_facts.

(** ** A negative return of [lws_write] *)

Section Signedness.
Context {E : Externals}.

(** [charsSent < msgLen] compares an [int] with a [size_t]: a negative
    [charsSent] is converted to a value near [2^64], the test fails and the
    loop goes on as after a complete send. *)
Lemma drain_negative_return fd message (rest : list string) (s : Server) :
  Z.of_nat (strlen message) ≤ 2 ^ 63 →
  charsSent fd (trace s) message < 0 →
  drain fd (message :: rest) s
  = drain fd rest (with_trace (λ t, t ++ [write_event fd t message]) s).
Proof.
  intros Hlen Hneg.
  cbn [drain]. unfold mbind at 1, M_bind at 1. unfold do_lws_write at 1.
  fold (charsSent fd (trace s) message).
  assert (Hge : (to_size_t (charsSent fd (trace s) message)
                 <? Z.of_nat (strlen message)) = false).
  { apply Z.ltb_ge. unfold to_size_t.
    assert (Hlow : - 2 ^ 31 ≤ charsSent fd (trace s) message).
    { unfold charsSent, to_int.
      pose proof (Z.mod_pos_bound (lws_write (trace s) fd (bytes message (strlen message))
                                   + 2 ^ 31) (2 ^ 32)). lia. }
    rewrite <- (Z.mod_add _ 1) by lia.
    rewrite Z.mod_small; lia. }
  by rewrite Hge.
Qed.

End Signedness.

(** ** [broadcast] *)

Section Broadcast_facts.
Context {E : Externals}.

Lemma send_loop_run data (l : list (Z * ConnPtr)) (s : Server) :
  NoDup l.*1 →
  (∀ id p, (id, p) ∈ l → ∃ c, connections s !! id = Some (ptr c)) →
  for_each l (λ connection, send connection.1 data) s
  = (Ok (), with_connections (λ m, foldl (λ m e, alter (push_ptr data) e.1 m) m l) s).
Proof.
  revert s. induction l as [|[id p] l IH]; intros s Hnd Hl.
  - simpl. unfold mret, M_ret. by rewrite with_connections_id.
  - apply NoDup_cons in Hnd as [Hid Hnd].
    destruct (Hl id p) as [c Hc]; [left|].
    cbn [for_each]. erewrite bind_ok by (by apply send_live).
    rewrite IH; [| done |].
    + rewrite with_connections_compose. f_equal. apply with_connections_ext.
      simpl. f_equal. apply map_eq. intros i.
      destruct (decide (i = id)) as [->|Hne].
      * by rewrite lookup_insert_eq, lookup_alter_eq, Hc.
      * by rewrite lookup_insert_ne, lookup_alter_ne.
    + intros id' p' Hin. simpl. rewrite lookup_insert_ne.
      * apply (Hl id' p'). by right.
      * intros ->. apply Hid. apply list_elem_of_fmap. by exists (id', p').
Qed.

Lemma alter_loop_lookup (f : ConnPtr → ConnPtr) (l : list (Z * ConnPtr))
    (m : gmap Z ConnPtr) i :
  NoDup l.*1 →
  foldl (λ m e, alter f e.1 m) m l !! i
  = if decide (i ∈ l.*1) then f <$> m !! i else m !! i.
Proof.
  revert m. induction l as [|[id p] l IH]; intros m Hnd; [done|].
  apply NoDup_cons in Hnd as [Hid Hnd]. cbn [foldl]. rewrite IH by done. simpl.
  destruct (decide (i = id)) as [->|Hne].
  - rewrite decide_False by done. rewrite decide_True by left.
    by rewrite lookup_alter_eq.
  - rewrite lookup_alter_ne by done.
    case_decide as Hi; case_decide as Hi'; try done.
    + exfalso. apply Hi'. by right.
    + exfalso. apply elem_of_cons in Hi' as [?|?]; done.
Qed.

(** On a registry of live connections [broadcast data] returns and every
    connection has [data] appended to its queue, once. *)
Lemma broadcast_live data (s : Server) :
  all_live (connections s) →
  broadcast data s = (Ok (), with_connections (fmap (push_ptr data)) s).
Proof.
  intros Hs. unfold broadcast. erewrite bind_ok by reflexivity.
  rewrite send_loop_run.
  - f_equal. apply with_connections_ext. apply map_eq. intros i.
    rewrite alter_loop_lookup by apply NoDup_entries.
    rewrite lookup_fmap. case_decide as Hi; [done|].
    destruct (connections s !! i) as [p|] eqn:Hp; [|done].
    exfalso. apply Hi. apply list_elem_of_fmap. exists (i, p).
    split; [done|]. by apply elem_of_entries.
  - apply NoDup_entries.
  - intros id p Hin. apply elem_of_entries in Hin.
    destruct (all_live_lookup _ _ _ Hs Hin) as [c ->]. eauto.
Qed.

End Broadcast_facts.

(** ** Reading back a printed number *)

Section Decimal_facts.

Ltac eval_digit :=
  match goal with
  | |- context [digit ?c] =>
      let v := eval vm_compute in (digit c) in change (digit c) with v
  end; cbv beta iota.

Lemma digits_uint_acc d acc (rest : string) :
  digits (NilEmpty.string_of_uint d +:+ rest) (Z.pos acc)
  = digits rest (Z.pos (Pos.of_uint_acc d acc)).
Proof.
  revert acc. induction d; intros acc; cbn [NilEmpty.string_of_uint Pos.of_uint_acc];
    [done|..]; rewrite string_app_cons; cbn [digits]; eval_digit;
    rewrite <- IHd; f_equal; lia.
Qed.

Lemma digits_uint d (rest : string) :
  digits (NilEmpty.string_of_uint d +:+ rest) 0
  = digits rest (Z.of_N (Pos.of_uint d)).
Proof.
  induction d; cbn [NilEmpty.string_of_uint Pos.of_uint]; [done|..];
    rewrite string_app_cons; cbn [digits]; eval_digit;
    first [ exact IHd | apply (digits_uint_acc d _ rest) ].
Qed.

Lemma starts_with_digit_uint d (rest : string) :
  d ≠ Decimal.Nil → starts_with_digit (NilEmpty.string_of_uint d +:+ rest) = true.
Proof. destruct d; [done|..]; intros _; reflexivity. Qed.

Lemma skip_space_uint d (rest : string) :
  d ≠ Decimal.Nil →
  skip_space (NilEmpty.string_of_uint d +:+ rest) = NilEmpty.string_of_uint d +:+ rest.
Proof. destruct d; [done|..]; intros _; reflexivity. Qed.

Lemma stoi_uint d (rest : string) :
  d ≠ Decimal.Nil → (∀ v, digits rest v = v) →
  stoi (NilEmpty.string_of_uint d +:+ rest)
  = if in_int_range (Z.of_N (Pos.of_uint d)) then Ok (Z.of_N (Pos.of_uint d))
    else Throw (out_of_range "stoi").
Proof.
  intros Hnil Hstop. unfold stoi. rewrite skip_space_uint by done.
  assert (Hsign : (match NilEmpty.string_of_uint d +:+ rest with
                   | String "-" r => (true, r)
                   | String "+" r => (false, r)
                   | _ => (false, NilEmpty.string_of_uint d +:+ rest)
                   end) = (false, NilEmpty.string_of_uint d +:+ rest)).
  { destruct d; done. }
  rewrite Hsign. rewrite starts_with_digit_uint by done.
  by rewrite digits_uint, Hstop.
Qed.

Lemma stoi_minus_uint d (rest : string) :
  d ≠ Decimal.Nil → (∀ v, digits rest v = v) →
  stoi (String "-" (NilEmpty.string_of_uint d) +:+ rest)
  = if in_int_range (- Z.of_N (Pos.of_uint d)) then Ok (- Z.of_N (Pos.of_uint d))
    else Throw (out_of_range "stoi").
Proof.
  intros Hnil Hstop. unfold stoi. rewrite string_app_cons. cbn [skip_space].
  change (isspace "-") with false. cbv iota.
  rewrite starts_with_digit_uint by done.
  by rewrite digits_uint, Hstop.
Qed.

Lemma string_of_uint_nonnil d :
  d ≠ Decimal.Nil → NilZero.string_of_uint d = NilEmpty.string_of_uint d.
Proof. by destruct d. Qed.

(** Reading back a printed number, whatever follows it. *)
Lemma stoi_to_string (z : Z) (rest : string) :
  starts_with_digit rest = false →
  stoi (to_string z +:+ rest)
  = if in_int_range z then Ok z else Throw (out_of_range "stoi").
Proof.
  intros Hrest.
  assert (Hstop : ∀ v, digits rest v = v).
  { intros v. destruct rest as [|c rest]; [done|]. simpl in *.
    destruct (digit c); [done|done]. }
  unfold to_string, NilZero.string_of_int.
  destruct z as [|p|p]; cbn [Z.to_int].
  - by rewrite string_of_uint_nonnil, stoi_uint.
  - rewrite string_of_uint_nonnil, stoi_uint by (done || apply Unsigned.to_uint_nonnil).
    by rewrite DecimalPos.Unsigned.of_to.
  - rewrite string_of_uint_nonnil, stoi_minus_uint by (done || apply Unsigned.to_uint_nonnil).
    by rewrite DecimalPos.Unsigned.of_to.
Qed.

End Decimal_facts.

(** ** Attributes, and access by identifier *)

Section Attribute_facts.
Context {E : Externals}.

Lemma setValue_live socketID name value (s : Server) c :
  connections s !! socketID = Some (ptr c) →
  setValue socketID name value s
  = (Ok (), with_connections
              (<[socketID := ptr (with_keyValueMap (<[name := value]> (keyValueMap c)) c)]>) s).
Proof.
  intros Hid. unfold setValue, connections_at, mbind, M_bind, Connection_index.
  rewrite Hid; simpl. f_equal. f_equal. f_equal.
  destruct (keyValueMap c !! name); simpl; [done|]. 
  unfold with_keyValueMap; simpl. by rewrite insert_insert_eq.
Qed.

(** X1.  [setValue] on a registered connection binds the key, and a
    [getValue] that follows returns the value written and changes nothing.
    The other keys of the connection, its queue and its permissions, and
    the other connections are as before the write. *)
Theorem setValue_then_getValue socketID name value (s : Server) c :
  connections s !! socketID = Some (ptr c) →
  ∃ s1 c1,
    setValue socketID name value s = (Ok (), s1)
    ∧ getValue socketID name s1 = (Ok value, s1)
    ∧ connections s1 !! socketID = Some (ptr c1)
    ∧ (∀ other, other ≠ name → keyValueMap c1 !! other = keyValueMap c !! other)
    ∧ buffer c1 = buffer c ∧ permissions c1 = permissions c
    ∧ (∀ id, id ≠ socketID → connections s1 !! id = connections s !! id).
Proof.
  intros Hid. eexists. eexists. split; [by apply setValue_live|].
  split; [|split; [|split; [|split; [|split]]]].
  - eapply getValue_present.
    + simpl. apply lookup_insert_eq.
    + simpl. apply lookup_insert_eq.
  - simpl. apply lookup_insert_eq.
  - intros other Hne. simpl. by rewrite lookup_insert_ne.
  - done.
  - done.
  - intros id Hne. simpl. by rewrite lookup_insert_ne.
Qed.

Lemma getValue_absent socketID name (s : Server) c :
  connections s !! socketID = Some (ptr c) →
  keyValueMap c !! name = None →
  getValue socketID name s
  = (Ok EmptyString,
     with_connections
       (<[socketID := ptr (with_keyValueMap (<[name := EmptyString]> (keyValueMap c)) c)]>) s).
Proof.
  intros Hid Hkey. unfold getValue, connections_at, mbind, M_bind, Connection_index.
  rewrite Hid; simpl. by rewrite Hkey.
Qed.

(** X2.  On a registered connection a second [getValue] of the same key
    returns what the first returned and leaves the object as the first left
    it: only the first read of an absent key writes. *)
Theorem getValue_twice socketID name (s : Server) c :
  connections s !! socketID = Some (ptr c) →
  ∃ v s1, getValue socketID name s = (Ok v, s1)
    ∧ getValue socketID name s1 = (Ok v, s1)
    ∧ v = default EmptyString (keyValueMap c !! name).
Proof.
  intros Hid. destruct (keyValueMap c !! name) as [v|] eqn:Hkey.
  - exists v, s. split; [|split]; [by eapply getValue_present..|done].
  - eexists. eexists. split; [by apply getValue_absent|]. split; [|done].
    eapply getValue_present.
    + simpl. apply lookup_insert_eq.
    + simpl. apply lookup_insert_eq.
Qed.

(** X3.  Every access by identifier goes through [connections[id]]: for an
    identifier the registry does not hold, [send], [setValue], [getValue]
    and the writable callback all end in the call through the null pointer
    that [operator[]] has just inserted. *)
Theorem unknown_id_faults socketID (s : Server) data name value :
  connections s !! socketID = None →
  let s' := with_connections (<[socketID := nullptr]>) s in
  send socketID data s = (Fault, s')
  ∧ setValue socketID name value s = (Fault, s')
  ∧ getValue socketID name s = (Fault, s')
  ∧ callback_main socketID LWS_CALLBACK_SERVER_WRITEABLE data s = (Fault, s').
Proof.
  intros Hid s'.
  unfold send, setValue, getValue, callback_main, connections_at, mbind, M_bind.
  by rewrite Hid.
Qed.

End Attribute_facts.

(** ** What the queues and the registry hold *)

Section Queue_order_facts.
Context {E : Externals}.

Lemma push_all_buffer messages c : buffer (push_all messages c) = buffer c ++ messages.
Proof.
  revert c. induction messages as [|m messages IH]; intros c; simpl.
  - by rewrite app_nil_r.
  - rewrite IH. simpl. by rewrite <- app_assoc.
Qed.

Lemma push_all_rest messages c :
  keyValueMap (push_all messages c) = keyValueMap c
  ∧ permissions (push_all messages c) = permissions c
  ∧ user (push_all messages c) = user c
  ∧ createTime (push_all messages c) = createTime c.
Proof.
  revert c. induction messages as [|m messages IH]; intros c; simpl; [done|].
  destruct (IH (push_to_buffer m c)) as (-> & -> & -> & ->). done.
Qed.

Lemma sends_run socketID (messages : list string) (s : Server) c :
  connections s !! socketID = Some (ptr c) →
  for_each messages (send socketID) s
  = (Ok (), with_connections (<[socketID := ptr (push_all messages c)]>) s).
Proof.
  revert s c. induction messages as [|m messages IH]; intros s c Hid.
  - simpl. unfold mret, M_ret. f_equal. symmetry.
    apply with_connections_id. by apply insert_id.
  - cbn [for_each]. erewrite bind_ok by (by apply send_live).
    erewrite IH by (simpl; apply lookup_insert_eq).
    rewrite with_connections_compose. f_equal. apply with_connections_ext.
    simpl. by rewrite insert_insert_eq.
Qed.

(** X4.  Messages sent one after the other to a registered connection
    are queued behind what it already holds, in the order of the calls;
    the attributes and permissions of the connection and every other
    connection are untouched. *)
Theorem sends_queue_in_order socketID (messages : list string) (s : Server) c :
  connections s !! socketID = Some (ptr c) →
  ∃ s' c',
    for_each messages (send socketID) s = (Ok (), s')
    ∧ connections s' !! socketID = Some (ptr c')
    ∧ buffer c' = buffer c ++ messages
    ∧ keyValueMap c' = keyValueMap c ∧ permissions c' = permissions c
    ∧ (∀ id, id ≠ socketID → connections s' !! id = connections s !! id).
Proof.
  intros Hid. eexists. eexists. split; [by apply sends_run|].
  destruct (push_all_rest messages c) as (Hkv & Hperm & _).
  split; [simpl; apply lookup_insert_eq|].
  split; [apply push_all_buffer|]. split; [done|]. split; [done|].
  intros id Hne. simpl. by rewrite lookup_insert_ne.
Qed.

(** X5.  On a registry of live connections [broadcast] returns and
    queues the message once, at the tail, for every connection, whatever
    its permissions; it registers and removes nothing, and on the empty
    registry it does nothing. *)
Theorem broadcast_reaches_every_connection data (s : Server) :
  all_live (connections s) →
  ∃ s', broadcast data s = (Ok (), s')
    ∧ (∀ id c, connections s !! id = Some (ptr c) →
         connections s' !! id = Some (ptr (push_to_buffer data c))
         ∧ buffer (push_to_buffer data c) = buffer c ++ [data])
    ∧ (∀ id, connections s' !! id = None ↔ connections s !! id = None)
    ∧ size (connections s') = size (connections s)
    ∧ (connections s = ∅ → s' = s).
Proof.
  intros Hs. eexists. split; [by apply broadcast_live|].
  split; [|split; [|split]].
  - intros id c Hid. simpl. by rewrite lookup_fmap, Hid.
  - intros id. simpl. rewrite lookup_fmap. by destruct (connections s !! id).
  - simpl. apply map_size_fmap.
  - intros Hempty. apply with_connections_id. rewrite Hempty. apply fmap_empty.
Qed.

End Queue_order_facts.

Section Registry_dom_facts.
Context {E : Externals}.

Lemma lifecycle_dom (evs : list lifecycle) (s : Server) :
  all_live (connections s) →
  ∃ s', for_each evs deliver s = (Ok (), s')
    ∧ all_live (connections s')
    ∧ dom (connections s') = registered_after (dom (connections s)) evs.
Proof.
  revert s. induction evs as [|e evs IH]; intros s Hs.
  - by exists s.
  - assert (Hstep : ∃ s1, deliver e s = (Ok (), s1) ∧ all_live (connections s1)
        ∧ dom (connections s1)
          = match e with
            | Established fd => {[fd]} ∪ dom (connections s)
            | Closed fd => dom (connections s) ∖ {[fd]}
            end).
    { destruct e as [fd|fd].
      - eexists. split; [by apply deliver_established|]. split.
        + by apply (connected_all_live fd) in Hs.
        + simpl. by rewrite dom_fmap_L, dom_insert_L.
      - eexists. split; [by apply deliver_closed|]. split.
        + by apply disconnected_all_live.
        + simpl. by rewrite dom_delete_L, dom_fmap_L. }
    destruct Hstep as (s1 & He & Hs1 & Hdom).
    destruct (IH s1 Hs1) as (s2 & Hevs & Hs2 & Hdom2).
    exists s2. split; [|split; [done|]].
    + cbn [for_each]. by erewrite bind_ok.
    + rewrite Hdom2, Hdom. done.
Qed.

(** X6.  After any sequence of connect and close callbacks on a
    constructed server, the registered identifiers are exactly those whose
    last callback was a connect: a close removes the identifier, a close of
    an unknown identifier removes nothing, a second connect of a registered
    identifier adds nothing.  [getNumberOfConnections] is the number of
    these identifiers. *)
Theorem registry_tracks_lifecycle
    (evs : list lifecycle) (queue : list RadioThreadIQData) (rxFreq span : Freq) :
  let out := for_each evs deliver (constructed queue rxFreq span) in
  out.1 = Ok ()
  ∧ dom (connections out.2) = registered_after ∅ evs
  ∧ (∀ id, id ∈ registered_after ∅ evs ↔ ∃ c, connections out.2 !! id = Some (ptr c))
  ∧ (getNumberOfConnections out.2).1
    = Ok (to_int (Z.of_nat (size (registered_after ∅ evs)))).
Proof.
  destruct (lifecycle_dom evs (constructed queue rxFreq span)) as (s' & Hrun & Hlive & Hdom).
  { apply map_Forall_empty. }
  simpl. rewrite Hrun. simpl in *. rewrite dom_empty_L in Hdom.
  split; [done|]. split; [done|]. split.
  - intros id. rewrite <- Hdom, elem_of_dom. split.
    + intros [p Hp]. destruct (all_live_lookup _ _ _ Hlive Hp) as [c ->]. eauto.
    + intros [c Hc]. eauto.
  - unfold getNumberOfConnections, mbind, M_bind, get, mret, M_ret. simpl.
    by rewrite <- Hdom, size_dom.
Qed.

End Registry_dom_facts.

(** ** What goes to the transport *)

Section Drain_order_facts.
Context {E : Externals}.

Lemma written_app (t1 t2 : list Event) : written (t1 ++ t2) = written t1 ++ written t2.
Proof. apply omap_app. Qed.

Lemma written_writes fd (t : list Event) (messages : list string) :
  written (writes fd t messages) = map (λ m, (fd, bytes m (strlen m))) messages.
Proof.
  revert t. induction messages as [|m messages IH]; intros t; [done|].
  cbn [writes]. change (written (?e :: ?l)) with (written [e] ++ written l).
  rewrite IH. done.
Qed.

(** X7.  A writable callback whose sends are all taken as complete hands
    the queued messages to the transport in queue order, each up to its
    first NUL, asks for the next writable event, and returns.  Nothing of
    the object but its event log has changed: the queue of the connection
    is the one it was. *)
Theorem writable_sends_queue_in_order fd (s : Server) c :
  connections s !! fd = Some (ptr c) →
  all_sent fd (trace s) (buffer c) = true →
  ∃ s', callback_main fd LWS_CALLBACK_SERVER_WRITEABLE EmptyString s = (Ok 0, s')
    ∧ written (trace s')
      = written (trace s) ++ map (λ m, (fd, bytes m (strlen m))) (buffer c)
    ∧ last (trace s') = Some (EvCallbackOnWritable fd)
    ∧ s' = with_trace (λ _, trace s') s
    ∧ connections s' !! fd = Some (ptr c).
Proof.
  intros Hid Hsent. eexists. split; [by apply writeable_all_sent|].
  split; [|split; [|split]].
  - simpl. rewrite !written_app, written_writes. simpl. by rewrite app_nil_r.
  - simpl. by rewrite app_assoc, last_snoc.
  - by destruct s.
  - done.
Qed.

Lemma all_sent_on_error fd (t : list Event) (messages : list string) :
  (∀ t' buf, INT_MIN ≤ lws_write t' fd buf < 0) →
  Forall (λ m, Z.of_nat (strlen m) ≤ 2 ^ 63) messages →
  all_sent fd t messages = true.
Proof.
  intros Herr Hlen. revert t. induction Hlen as [|m messages Hm _ IH]; intros t; [done|].
  cbn [all_sent]. rewrite IH, andb_true_r. apply negb_true_iff, Z.ltb_ge.
  unfold to_size_t, charsSent, to_int.
  specialize (Herr t (bytes m (strlen m))). unfold INT_MIN in Herr.
  rewrite (Z.mod_small (_ + 2 ^ 31)) by lia.
  rewrite <- (Z.mod_add _ 1) by lia. rewrite Z.mod_small; lia.
Qed.

Lemma writes_only_writes fd (t : list Event) (messages : list string) ev :
  ev ∈ writes fd t messages → ∃ buf ret, ev = EvWrite fd buf ret.
Proof.
  revert t. induction messages as [|m messages IH]; intros t H; simpl in H.
  - by apply elem_of_nil in H.
  - apply elem_of_cons in H as [->|H]; [unfold write_event; eauto | by eapply IH].
Qed.

(** X8.  A transport that answers every [lws_write] on [fd] with a
    negative [int], as libwebsockets does on a fatal error: the test
    [charsSent < msgLen] converts the value to [size_t] and never
    succeeds.  The writable callback goes through the whole queue, calls
    neither [onError] nor [_removeConnection], and returns with the
    connection registered and its queue intact. *)
Theorem write_errors_go_unnoticed fd (s : Server) c :
  (∀ t buf, INT_MIN ≤ lws_write t fd buf < 0) →
  Forall (λ m, Z.of_nat (strlen m) ≤ 2 ^ 63) (buffer c) →
  connections s !! fd = Some (ptr c) →
  ∃ s', callback_main fd LWS_CALLBACK_SERVER_WRITEABLE EmptyString s = (Ok 0, s')
    ∧ connections s' = connections s
    ∧ length (written (trace s')) = (length (written (trace s)) + length (buffer c))%nat
    ∧ (∀ message, EvOnError fd message ∈ trace s' → EvOnError fd message ∈ trace s).
Proof.
  intros Herr Hlen Hid. eexists.
  split; [apply writeable_all_sent; [done | by apply all_sent_on_error]|].
  split; [done|]. split.
  - simpl. rewrite !written_app, written_writes, !length_app, length_map. simpl. lia.
  - intros message. simpl. rewrite !elem_of_app. intros [H|[H|H]]; [done| |].
    + by apply writes_only_writes in H as (buf & ret & ?).
    + apply list_elem_of_singleton in H. done.
Qed.

End Drain_order_facts.

(** ** Messages that hold a NUL *)

Section Nul_facts.
Context {E : Externals}.

Lemma strlen_app_nul (a b : string) :
  ¬ In Ascii.zero (list_ascii_of_string a) →
  strlen (a +:+ String Ascii.zero b) = String.length a.
Proof.
  induction a as [|x a IH]; intros Hnul.
  - reflexivity.
  - rewrite string_app_cons. cbn [strlen String.length].
    destruct (Ascii.eqb x Ascii.zero) eqn:Hx.
    + apply Ascii.eqb_eq in Hx. exfalso. apply Hnul. by left.
    + rewrite IH; [done|]. intros H. apply Hnul. by right.
Qed.

Lemma strlen_nul_free (a : string) :
  ¬ In Ascii.zero (list_ascii_of_string a) → strlen a = String.length a.
Proof.
  induction a as [|x a IH]; intros Hnul; [done|].
  cbn [strlen String.length].
  destruct (Ascii.eqb x Ascii.zero) eqn:Hx.
  - apply Ascii.eqb_eq in Hx. exfalso. apply Hnul. by left.
  - rewrite IH; [done|]. intros H. apply Hnul. by right.
Qed.

Lemma substring_prefix (a b : string) : substring 0 (String.length a) (a +:+ b) = a.
Proof.
  induction a as [|x a IH]; [by destruct b|].
  rewrite string_app_cons. simpl. by rewrite IH.
Qed.

Lemma bytes_app_nul (a b : string) :
  ¬ In Ascii.zero (list_ascii_of_string a) →
  bytes (a +:+ String Ascii.zero b) (strlen (a +:+ String Ascii.zero b)) = a.
Proof. intros Hnul. unfold bytes. by rewrite strlen_app_nul, substring_prefix. Qed.

Lemma bytes_nul_free (a : string) :
  ¬ In Ascii.zero (list_ascii_of_string a) → bytes a (strlen a) = a.
Proof.
  intros Hnul. unfold bytes. rewrite strlen_nul_free by done.
  pose proof (substring_prefix a EmptyString) as H.
  by rewrite string_app_nil_r in H.
Qed.

(** X9.  The drain loop measures a message with [strlen] and hands
    [c_str()] to the transport.  A message without NUL is measured and
    handed over whole.  A message [a ++ NUL ++ b] is treated as the message
    [a] in every respect: what follows the first NUL is never written.  A
    message that is empty or begins with NUL has length 0 for the loop:
    one empty write is made and, whatever the transport answers, the send
    is taken as complete and the loop goes on. *)
Theorem message_cut_at_first_nul fd (a b : string) (rest : list string) (s : Server) :
  ¬ In Ascii.zero (list_ascii_of_string a) →
  strlen a = String.length a
  ∧ bytes a (strlen a) = a
  ∧ drain fd ((a +:+ String Ascii.zero b) :: rest) s = drain fd (a :: rest) s
  ∧ drain fd (String Ascii.zero b :: rest) s = drain fd (EmptyString :: rest) s
  ∧ drain fd (EmptyString :: rest) s
    = drain fd rest
        (with_trace
           (λ t, t ++ [EvWrite fd EmptyString (to_int (lws_write (trace s) fd EmptyString))])
           s).
Proof.
  intros Hnul.
  split; [by apply strlen_nul_free|]. split; [by apply bytes_nul_free|].
  split; [|split].
  - cbn [drain]. by rewrite bytes_app_nul, bytes_nul_free, strlen_app_nul, strlen_nul_free.
  - reflexivity.
  - cbn [drain strlen]. unfold bytes, do_lws_write, mbind, M_bind. cbn [substring].
    replace (to_size_t _ <? Z.of_nat 0) with false; [done|].
    symmetry. apply Z.ltb_ge. unfold to_size_t. apply Z.mod_pos_bound. lia.
Qed.

End Nul_facts.

(** ** A turn of the producer *)

Section Producer_facts.
Context {E : Externals}.

Lemma run_body_pop (s : Server) batch rest :
  m_IQdataQueue s = batch :: rest →
  5 < queue_size (batch :: rest) →
  run_body s
  = (if m_socketsOn s then send_spectrum (data batch) else mret ())
      (with_IQdataOut batch (with_IQdataQueue rest s)).
Proof.
  intros Hq Hdepth. unfold run_body.
  erewrite bind_ok by reflexivity. erewrite bind_ok by reflexivity.
  destruct s as [conns on stop queue out rx sp msg tr]; simpl in *. subst queue.
  replace (5 <? queue_size (batch :: rest)) with true by (symmetry; apply Z.ltb_lt; lia).
  erewrite bind_ok by reflexivity. erewrite bind_ok by reflexivity.
  done.
Qed.

(** X10.  A turn of the producer on a queue deeper than 5 with the gate
    set, when the estimator's 512 values can be cast: the oldest batch
    leaves the queue, the spectrum message of that batch is built, and
    every registered connection has exactly that message appended to its
    queue.  No event is logged and no connection is added or removed. *)
Theorem producer_turn_broadcasts_spectrum (s : Server) batch rest :
  all_live (connections s) →
  m_socketsOn s = true →
  m_IQdataQueue s = batch :: rest →
  5 < queue_size (batch :: rest) →
  (∀ k, (k < 512)%nat → castable (spgramcf_psd nfft (data batch) k) = true) →
  let text := spectrum_text (put_Freq (m_rxFreq s)) (put_Freq (m_span s))
                (map (λ k, trunc (spgramcf_psd nfft (data batch) k)) (seq 0 512)) in
  ∃ s', run_body s = (Ok (), s')
    ∧ m_IQdataQueue s' = rest
    ∧ m_IQdataOut s' = batch
    ∧ m_msgSOCKET s' = text
    ∧ (∀ id c, connections s !! id = Some (ptr c) →
         connections s' !! id = Some (ptr (push_to_buffer text c)))
    ∧ (∀ id, connections s' !! id = None ↔ connections s !! id = None)
    ∧ trace s' = trace s.
Proof.
  intros Hs Hon Hq Hdepth Hcast text.
  rewrite (run_body_pop s batch rest Hq Hdepth), Hon.
  unfold send_spectrum.
  erewrite bind_ok by (by apply write_spectrum_run).
  erewrite bind_ok by reflexivity.
  rewrite broadcast_live by (by destruct s).
  eexists. split; [reflexivity|].
  destruct s as [conns on stop queue out rx sp msg tr]; simpl in *.
  split; [done|]. split; [done|]. split; [done|]. split; [|split; [|done]].
  - intros id c Hid. by rewrite lookup_fmap, Hid.
  - intros id. rewrite lookup_fmap. by destruct (conns !! id).
Qed.

(** X11.  With the gate clear a turn on a queue deeper than 5 still pops:
    the oldest batch is moved to [m_IQdataOut] and nothing else happens, so
    the batch is consumed without any spectrum being computed or sent. *)
Theorem producer_turn_discards_batch_when_gate_clear (s : Server) batch rest :
  m_socketsOn s = false →
  m_IQdataQueue s = batch :: rest →
  5 < queue_size (batch :: rest) →
  run_body s = (Ok (), with_IQdataOut batch (with_IQdataQueue rest s)).
Proof.
  intros Hoff Hq Hdepth. by rewrite (run_body_pop s batch rest Hq Hdepth), Hoff.
Qed.

End Producer_facts.

(** ** Commands of the client *)

Section Command_facts.
Context {E : Externals}.

Lemma index_of_app_colon (cmd arg : string) :
  ¬ In ":"%char (list_ascii_of_string cmd) →
  index_of ":" (cmd +:+ String ":" arg) = Some (String.length cmd).
Proof.
  induction cmd as [|x cmd IH]; intros Hcolon.
  - reflexivity.
  - rewrite string_app_cons. cbn [index_of String.length].
    destruct (Ascii.eqb x ":") eqn:Hx.
    + apply Ascii.eqb_eq in Hx. exfalso. apply Hcolon. by left.
    + rewrite IH; [done|]. intros H. apply Hcolon. by right.
Qed.

Lemma length_app_string (a b : string) :
  String.length (a +:+ b) = (String.length a + String.length b)%nat.
Proof. induction a as [|x a IH]; [done|]. rewrite string_app_cons. simpl. by rewrite IH. Qed.

Lemma substring_tail (a b : string) :
  substring (String.length a) (String.length b) (a +:+ b) = b.
Proof.
  induction a as [|x a IH]; [apply substring_whole|].
  rewrite string_app_cons. simpl. exact IH.
Qed.

(** A payload with a colon behind a command that is not empty: the command
    is what precedes the first colon, the argument what follows it. *)
Lemma onMessage_split socketID (cmd arg : string) (s : Server) :
  cmd ≠ EmptyString →
  ¬ In ":"%char (list_ascii_of_string cmd) →
  Z.of_nat (String.length (cmd +:+ String ":" arg)) < npos →
  wsSpectrogram_onMessage socketID (cmd +:+ String ":" arg) s
  = (LOG_TEST_INFO ("User click: " +:+ (cmd +:+ String ":" arg) +:+ " ");;
     par ← lift (stoi arg);
     LOG_TEST_INFO ("cmd: " +:+ cmd +:+ " par: " +:+ to_string par +:+ " ")) s.
Proof.
  intros Hcmd Hcolon Hsize. unfold wsSpectrogram_onMessage.
  unfold find_first_of. rewrite index_of_app_colon by done.
  assert (Hpos : (0 <? Z.of_nat (String.length cmd)) = true).
  { apply Z.ltb_lt. destruct cmd; [done|]. simpl. lia. }
  rewrite Hpos.
  rewrite length_app_string in Hsize. cbn [String.length] in Hsize.
  assert (Hcmdsub : substr (cmd +:+ String ":" arg) 0 (Z.of_nat (String.length cmd)) = Ok cmd).
  { unfold substr. rewrite length_app_string. cbn [String.length].
    replace (_ <? 0) with false by (symmetry; apply Z.ltb_ge; lia).
    rewrite Z.min_l by lia. rewrite Nat2Z.id. simpl Z.to_nat.
    by rewrite substring_prefix. }
  assert (Hargsub : substr (cmd +:+ String ":" arg)
                      (to_size_t (Z.of_nat (String.length cmd) + 1)) npos = Ok arg).
  { unfold substr, to_size_t. rewrite length_app_string. cbn [String.length].
    unfold npos in *. rewrite Z.mod_small by lia.
    replace (_ <? _) with false by (symmetry; apply Z.ltb_ge; lia).
    rewrite Z.min_r by lia.
    replace (Z.to_nat (Z.of_nat (String.length cmd) + 1)) with (String.length (cmd +:+ ":")).
    2:{ rewrite length_app_string. simpl. lia. }
    replace (Z.to_nat _) with (String.length arg) by lia.
    replace (cmd +:+ String ":" arg) with ((cmd +:+ ":") +:+ arg)
      by (by rewrite string_app_assoc).
    by rewrite substring_tail. }
  rewrite Hcmdsub, Hargsub.
  unfold mbind, M_bind, lift.
  destruct (LOG_TEST_INFO _ s) as [[[]| |] s1]; [|done..].
  by destruct (stoi arg).
Qed.

(** X12.  A payload [cmd:arg] whose command is not empty and holds no
    colon is split at its first colon and [stoi] is given [arg].  When
    [arg] is the decimal text of an [int] [n], with anything behind it
    that does not start with a digit, the handler returns, having logged
    the payload and then the command with the number [n]; the registry is
    touched by these two log records only. *)
Theorem onMessage_reads_command_and_number
    socketID (cmd : string) (n : Z) (rest : string) (s : Server) :
  cmd ≠ EmptyString →
  ¬ In ":"%char (list_ascii_of_string cmd) →
  Z.of_nat (String.length (cmd +:+ String ":" (to_string n +:+ rest))) < npos →
  in_int_range n = true →
  starts_with_digit rest = false →
  all_live (connections s) →
  wsSpectrogram_onMessage socketID (cmd +:+ String ":" (to_string n +:+ rest)) s
  = (Ok (),
     logged lvl_info ("cmd: " +:+ cmd +:+ " par: " +:+ to_string n +:+ " ")
       (logged lvl_info
          ("User click: " +:+ (cmd +:+ String ":" (to_string n +:+ rest)) +:+ " ") s)).
Proof.
  intros Hcmd Hcolon Hsize Hrange Hrest Hs.
  rewrite onMessage_split by done.
  unfold LOG_TEST_INFO. erewrite bind_ok by (by apply LOG_TEST_live).
  rewrite stoi_to_string by done. rewrite Hrange.
  erewrite bind_ok by reflexivity.
  apply LOG_TEST_live. by apply logged_all_live.
Qed.

(** X13.  A payload that begins with a colon: [find_first_of] is 0, both
    tests [> 0] fail, and nothing is parsed.  The handler returns with
    [cmd] empty and [par] 0 whatever follows the colon, a number or not. *)
Theorem onMessage_leading_colon_parses_nothing socketID (arg : string) (s : Server) :
  all_live (connections s) →
  wsSpectrogram_onMessage socketID (String ":" arg) s
  = (Ok (),
     logged lvl_info "cmd:  par: 0 "
       (logged lvl_info ("User click: " +:+ String ":" arg +:+ " ") s)).
Proof.
  intros Hs. unfold wsSpectrogram_onMessage.
  change (find_first_of (String ":" arg) ":") with 0.
  change (0 <? 0) with false. cbv iota.
  unfold LOG_TEST_INFO. erewrite bind_ok by (by apply LOG_TEST_live).
  erewrite bind_ok by reflexivity. erewrite bind_ok by reflexivity.
  apply LOG_TEST_live. by apply logged_all_live.
Qed.

End Command_facts.

(** ** What a poll and the loop leave alone *)

Create HintDb frame.

Section Frame_facts.
Context {E : Externals}.
Context {B : Type} (field : Server → B).

Lemma untouched_ret {A} (a : A) : untouched field (mret a).
Proof. done. Qed.

Lemma untouched_get : untouched field get.
Proof. done. Qed.

Lemma untouched_lift {A} (r : Res A) : untouched field (lift r).
Proof. done. Qed.

Lemma untouched_bind {A C} (m : M A) (f : A → M C) :
  untouched field m → (∀ a, untouched field (f a)) → untouched field (m ≫= f).
Proof.
  intros Hm Hf s. unfold mbind, M_bind. specialize (Hm s).
  destruct (m s) as [[a| |] s1]; simpl in *; [|done..].
  by rewrite Hf.
Qed.

Lemma untouched_for_each {A} (l : list A) (body : A → M unit) :
  (∀ x, untouched field (body x)) → untouched field (for_each l body).
Proof.
  intros Hbody. induction l as [|x l IH]; simpl.
  - apply untouched_ret.
  - apply untouched_bind; [apply Hbody | by intros _].
Qed.

Hypothesis Hfield : beside_registry field.

Lemma untouched_connections f : untouched field (modify (with_connections f)).
Proof. intros s. apply Hfield. Qed.

Lemma untouched_socketsOn b : untouched field (modify (with_socketsOn b)).
Proof. intros s. apply Hfield. Qed.

Lemma untouched_emit ev : untouched field (emit ev).
Proof. intros s. apply Hfield. Qed.

Lemma untouched_connections_at socketID : untouched field (connections_at socketID).
Proof.
  intros s. unfold connections_at.
  destruct (connections s !! socketID); [done|]. apply Hfield.
Qed.

Ltac frame_step :=
  match goal with
  | |- untouched _ (_ ≫= _) => apply untouched_bind; [|intros ?]
  | |- untouched _ (mret _) => apply untouched_ret
  | |- untouched _ get => apply untouched_get
  | |- untouched _ (lift _) => apply untouched_lift
  | |- untouched _ (throw _) => apply untouched_lift
  | |- untouched _ (connections_at _) => apply untouched_connections_at
  | |- untouched _ (modify (with_connections _)) => apply untouched_connections
  | |- untouched _ (store _ _) => apply untouched_connections
  | |- untouched _ (modify (with_socketsOn _)) => apply untouched_socketsOn
  | |- untouched _ (emit _) => apply untouched_emit
  | |- untouched _ (for_each _ _) => apply untouched_for_each; intros ?
  | |- untouched _ (if ?c then _ else _) => destruct c
  | |- untouched _ (match ?x with _ => _ end) => destruct x
  | |- untouched _ _ => solve [auto with frame]
  end.

Ltac frame := repeat frame_step.

Lemma untouched_send socketID data : untouched field (send socketID data).
Proof. unfold send, deref. frame. Qed.
Hint Resolve untouched_send : frame.

Lemma untouched_broadcast data : untouched field (broadcast data).
Proof. unfold broadcast. frame. Qed.

Lemma untouched_setValue socketID name value :
  untouched field (setValue socketID name value).
Proof. unfold setValue, deref. frame. Qed.

Lemma untouched_getValue socketID name : untouched field (getValue socketID name).
Proof. unfold getValue, deref. frame. Qed.

Lemma untouched_LOG_TEST lvl payload : untouched field (LOG_TEST lvl payload).
Proof. unfold LOG_TEST, broadcast_log, deref. frame. Qed.
Hint Resolve untouched_LOG_TEST : frame.

Lemma untouched_removeConnection socketID : untouched field (_removeConnection socketID).
Proof. unfold _removeConnection. frame. Qed.
Hint Resolve untouched_removeConnection : frame.

Lemma untouched_onErrorWrapper socketID message :
  untouched field (onErrorWrapper socketID message).
Proof.
  unfold onErrorWrapper; simpl.
  unfold wsSpectrogram_onError, LOG_TEST_DEBUG, LOG_TEST_ERROR. frame.
Qed.
Hint Resolve untouched_onErrorWrapper : frame.

Lemma untouched_do_lws_write wsi buf : untouched field (do_lws_write wsi buf).
Proof. intros s. apply Hfield. Qed.
Hint Resolve untouched_do_lws_write : frame.

Lemma untouched_drain fd (buffer : list string) : untouched field (drain fd buffer).
Proof. induction buffer as [|message rest IH]; cbn [drain]; frame. Qed.
Hint Resolve untouched_drain : frame.

Lemma untouched_callback_main wsi reason input :
  untouched field (callback_main wsi reason input).
Proof.
  unfold callback_main, lws_callback_on_writable, onConnectWrapper, onDisconnectWrapper,
    deref; simpl.
  unfold wsSpectrogram_onConnect, wsSpectrogram_onDisconnect, wsSpectrogram_onMessage,
    LOG_TEST_INFO.
  frame.
Qed.
Hint Resolve untouched_callback_main : frame.

Lemma untouched_wait timeout svc : untouched field (wait timeout svc).
Proof. unfold wait. frame. Qed.
Hint Resolve untouched_wait : frame.

Lemma untouched_run_iteration svc :
  beside_producer field → untouched field (run_iteration svc).
Proof.
  intros (_ & Hq & Hout & Hmsg).
  assert (Hput : ∀ text, untouched field (put text)) by (intros text s; apply Hmsg).
  unfold run_iteration, run_body, send_spectrum, write_spectrum, write_psd.
  apply untouched_bind; [apply untouched_wait|]. intros _.
  apply untouched_bind; [intros s; apply Hout|]. intros _.
  apply untouched_bind; [apply untouched_get|]. intros s0.
  destruct (5 <? _); [|apply untouched_ret].
  apply untouched_bind.
  { intros s. unfold queue_pop. destruct (m_IQdataQueue s) eqn:Hs; [done|].
    simpl. by rewrite Hout, Hq. }
  intros _. apply untouched_bind; [apply untouched_get|]. intros s1.
  destruct (m_socketsOn s1); [|apply untouched_ret].
  apply untouched_bind.
  - apply untouched_bind; [intros s; apply Hmsg|]. intros _.
    repeat first
      [ apply Hput | apply untouched_get | apply untouched_lift | apply untouched_ret
      | apply untouched_for_each; intros ?
      | apply untouched_bind; [|intros ?]
      | match goal with |- untouched _ (if ?c then _ else _) => destruct c end ].
  - intros _. apply untouched_bind; [apply untouched_get|]. intros s2.
    apply untouched_broadcast.
Qed.

End Frame_facts.

Section Loop_facts.
Context {E : Externals}.

Lemma stopping_beside_producer : beside_producer stopping.
Proof. by repeat split; intros ? []. Qed.

Lemma rxFreq_beside_producer : beside_producer m_rxFreq.
Proof. by repeat split; intros ? []. Qed.

Lemma span_beside_producer : beside_producer m_span.
Proof. by repeat split; intros ? []. Qed.

Lemma queue_beside_registry : beside_registry m_IQdataQueue.
Proof. by repeat split; intros ? []. Qed.

Lemma out_beside_registry : beside_registry m_IQdataOut.
Proof. by repeat split; intros ? []. Qed.

Lemma msg_beside_registry : beside_registry m_msgSOCKET.
Proof. by repeat split; intros ? []. Qed.

Lemma run_loop_for_each (schedule : list lws_service_run) (s : Server) :
  stopping s = false →
  run_loop schedule s = for_each schedule run_iteration s
  ∧ stopping (run_loop schedule s).2 = false.
Proof.
  revert s. induction schedule as [|svc rest IH]; intros s Hs; [done|].
  cbn [run_loop for_each]. erewrite bind_ok by reflexivity. rewrite Hs.
  pose proof (untouched_run_iteration stopping (proj1 stopping_beside_producer)
                svc stopping_beside_producer s) as Hkeep.
  unfold mbind, M_bind.
  destruct (run_iteration svc s) as [[[]| |] s1]; simpl in Hkeep |- *.
  - apply IH. by rewrite Hkeep.
  - split; [done|]. by rewrite Hkeep.
  - split; [done|]. by rewrite Hkeep.
Qed.

(** X14.  From construction on, through any sequence of calls of the
    public methods, of callbacks of the engine, of polls and of turns of
    the loop, the registry holds no null pointer, unless one of the calls
    ended in undefined behaviour. *)
Theorem registry_never_holds_null (calls : list call) queue rxFreq span :
  (for_each calls perform (constructed queue rxFreq span)).1 ≠ Fault →
  ∀ id p, connections (for_each calls perform (constructed queue rxFreq span)).2 !! id = Some p →
    ∃ c, p = ptr c.
Proof.
  intros Hok id p Hid.
  assert (Hlive : stays_live (for_each calls perform)).
  { apply live_for_each. intros [].
    - apply live_send.
    - apply live_broadcast.
    - apply live_setValue.
    - apply live_bind; [apply live_getValue | intros ?; apply live_ret].
    - by intros s Hs _.
    - apply live_bind; [apply live_callback_main | intros ?; apply live_ret].
    - apply live_wait.
    - apply run_loop_all_live.
    - apply live_modify. by intros [].
    - apply live_LOG_TEST. }
  pose proof (Hlive _ (map_Forall_empty _) Hok id p Hid) as Hp.
  destruct p as [|c]; [done|]. by exists c.
Qed.

(** X15.  A poll, whatever callbacks the engine makes in it and however
    it ends, writes the registry, the gate flag and the event log only:
    the stop flag, the sample queue, the batch last popped, the two
    frequencies and the message buffer are as before. *)
Theorem poll_leaves_producer_members timeout (svc : lws_service_run) (s : Server) :
  stopping (wait timeout svc s).2 = stopping s
  ∧ m_IQdataQueue (wait timeout svc s).2 = m_IQdataQueue s
  ∧ m_IQdataOut (wait timeout svc s).2 = m_IQdataOut s
  ∧ m_rxFreq (wait timeout svc s).2 = m_rxFreq s
  ∧ m_span (wait timeout svc s).2 = m_span s
  ∧ m_msgSOCKET (wait timeout svc s).2 = m_msgSOCKET s.
Proof.
  repeat split.
  - apply (untouched_wait stopping (proj1 stopping_beside_producer)).
  - apply (untouched_wait m_IQdataQueue queue_beside_registry).
  - apply (untouched_wait m_IQdataOut out_beside_registry).
  - apply (untouched_wait m_rxFreq (proj1 rxFreq_beside_producer)).
  - apply (untouched_wait m_span (proj1 span_beside_producer)).
  - apply (untouched_wait m_msgSOCKET msg_beside_registry).
Qed.

(** X16.  Nothing inside the loop of [run] ends it: started with the stop
    flag clear, the loop makes a turn for every poll of the schedule
    unless a turn throws or ends in undefined behaviour, and the flag is
    still clear afterwards, as are the two frequencies unchanged.  After
    [terminate] the loop makes no turn at all. *)
Theorem loop_ends_only_on_terminate (schedule : list lws_service_run) (s : Server) :
  stopping s = false →
  run_loop schedule s = for_each schedule run_iteration s
  ∧ stopping (run_loop schedule s).2 = false
  ∧ m_rxFreq (run_loop schedule s).2 = m_rxFreq s
  ∧ m_span (run_loop schedule s).2 = m_span s
  ∧ run_loop schedule (terminate (run_loop schedule s).2).2
    = (Ok (), (terminate (run_loop schedule s).2).2).
Proof.
  intros Hs. destruct (run_loop_for_each schedule s Hs) as [Hrun Hstop].
  split; [done|]. split; [done|]. rewrite Hrun. repeat split.
  - apply (untouched_for_each m_rxFreq). intros svc.
    apply untouched_run_iteration; [apply rxFreq_beside_producer..].
  - apply (untouched_for_each m_span). intros svc.
    apply untouched_run_iteration; [apply span_beside_producer..].
  - by destruct schedule.
Qed.

(** X17.  A poll that fails: when [lws_service] returns a negative value
    after callbacks that all returned, [wait] throws [runtime_error] and
    nothing in [run] catches it.  The turn of the producer is skipped (the
    sample queue and the batch last popped are as before the poll), the
    polls behind it are never made, and the stop flag is still clear. *)
Theorem failed_poll_ends_loop (svc : lws_service_run) (rest : list lws_service_run)
    (s s1 : Server) :
  stopping s = false →
  for_each (callbacks svc) (λ cb, callback_main cb.1.1 cb.1.2 cb.2;; mret ()) s = (Ok (), s1) →
  service_result svc < 0 →
  run_loop (svc :: rest) s
  = (Throw (runtime_error "Error polling for socket activity."), s1)
  ∧ m_IQdataQueue s1 = m_IQdataQueue s
  ∧ m_IQdataOut s1 = m_IQdataOut s
  ∧ stopping s1 = false.
Proof.
  intros Hs Hcalls Hresult.
  assert (Hwait : wait (-1) svc s
                  = (Throw (runtime_error "Error polling for socket activity."), s1)).
  { unfold wait. erewrite bind_ok by exact Hcalls.
    by replace (service_result svc <? 0) with true by (symmetry; apply Z.ltb_lt; lia). }
  split.
  - cbn [run_loop]. erewrite bind_ok by reflexivity. rewrite Hs.
    unfold run_iteration. erewrite bind_throw; [reflexivity|].
    erewrite bind_throw; [reflexivity|]. exact Hwait.
  - pose proof (untouched_wait m_IQdataQueue queue_beside_registry (-1) svc s) as Hq.
    pose proof (untouched_wait m_IQdataOut out_beside_registry (-1) svc s) as Hout.
    pose proof (untouched_wait stopping (proj1 stopping_beside_producer) (-1) svc s) as Hstop.
    rewrite Hwait in Hq, Hout, Hstop. simpl in *. by rewrite Hstop.
Qed.

End Loop_facts.


(** * Scenarios *)

Lemma all_live_bench_7 w : all_live (connections (bench_7 w)).
Proof. apply (bool_decide_unpack _). reflexivity. Defined.

(** C1, on the scenario of the specification.  Connection 7 queues "A"
    then "B" and every send is complete.  The writable callback writes "A"
    then "B" and returns, and the queue of connection 7 still holds "A"
    and "B": the loop popped them from its copy.  The next writable
    callback writes both again. *)
Theorem C1_drain_leaves_queue_unchanged :
  let s := bench_AB accept_all in
  let out := callback_main 7 LWS_CALLBACK_SERVER_WRITEABLE EmptyString s in
  let again := callback_main 7 LWS_CALLBACK_SERVER_WRITEABLE EmptyString out.2 in
  outbound_queue s 7 = Some ["A"; "B"]
  ∧ out.1 = Ok 0
  ∧ trace out.2 = trace s ++ [EvWrite 7 "A" 1; EvWrite 7 "B" 1; EvCallbackOnWritable 7]
  ∧ outbound_queue out.2 7 = Some ["A"; "B"]
  ∧ outbound_queue out.2 7 ≠ Some []
  ∧ trace again.2
    = trace out.2 ++ [EvWrite 7 "A" 1; EvWrite 7 "B" 1; EvCallbackOnWritable 7].
Proof. vm_compute. repeat split; done. Qed.

(** C2, on the scenario of the specification.  Connection 7 has closed and
    the registry is empty.  [send(7, "C")] does not return: it ends in
    the call through a null pointer, and by then the registry has gained a
    slot for 7. *)
Theorem C2_send_to_closed_connection_faults :
  let s := bench_closed in
  let out := send 7 "C" s in
  connections s = ∅
  ∧ out.1 = Fault
  ∧ connections out.2 = {[7 := nullptr]}
  ∧ size (connections out.2) = 1%nat.
Proof. vm_compute. repeat split; done. Qed.

(** C3, on a transport that fails.  Connection 7 queues "A" then "B" and
    [lws_write] answers every write with -1, its error return: nothing
    was transmitted, and -1 is below the length 1 of the message.  The
    writable callback does not call [onError]: it writes "A", then "B",
    asks for the next writable event and returns 0.  Connection 7 is
    still registered, as it was, and its queue still holds "A" and "B". *)
Theorem C3_failed_write_is_not_detected :
  let s := bench_AB reject_all in
  let out := callback_main 7 LWS_CALLBACK_SERVER_WRITEABLE EmptyString s in
  outbound_queue s 7 = Some ["A"; "B"]
  ∧ charsSent (E:=bench reject_all) 7 (trace s) "A" = -1
  ∧ charsSent (E:=bench reject_all) 7 (trace s) "A" < Z.of_nat (strlen "A")
  ∧ out.1 = Ok 0
  ∧ trace out.2
    = trace s ++ [EvWrite 7 "A" (-1); EvWrite 7 "B" (-1); EvCallbackOnWritable 7]
  ∧ (∀ message, EvOnError 7 message ∉ trace out.2)
  ∧ connections out.2 !! 7 = connections s !! 7
  ∧ outbound_queue out.2 7 = Some ["A"; "B"].
Proof.
  intros s out.
  split; [reflexivity|]. split; [reflexivity|]. split; [reflexivity|].
  split; [reflexivity|]. split; [reflexivity|].
  split; [|split; reflexivity].
  intros message Hin. vm_compute in Hin.
  repeat (apply elem_of_cons in Hin as [Hin|Hin]; [discriminate Hin|]).
  by apply elem_of_nil in Hin.
Qed.

(** Connection 7 is registered and queues "A" and "B".  Registering 7
    again returns and replaces its entry; removing 9, which is absent,
    returns. *)
Lemma C4_counterexample :
  let s := bench_AB accept_all in
  outbound_queue s 7 = Some ["A"; "B"]
  ∧ (onConnectWrapper 7 s).1 = Ok ()
  ∧ outbound_queue (onConnectWrapper 7 s).2 7 = Some []
  ∧ connections (onConnectWrapper 7 s).2 ≠ connections s
  ∧ connections s !! 9 = None
  ∧ (_removeConnection 9 s).1 = Ok ().
Proof. vm_compute. repeat split; done. Qed.

Lemma C4_witness :
  all_live (connections (bench_AB accept_all))
  ∧ connections (bench_AB accept_all) !! 9 = None
  ∧ (onConnectWrapper 7 (bench_AB accept_all)).1 = Ok ()
  ∧ _removeConnection 9 (bench_AB accept_all) = (Ok (), bench_AB accept_all).
Proof.
  assert (Hlive : all_live (connections (bench_AB accept_all)))
    by (apply (bool_decide_unpack _); reflexivity).
  split; [exact Hlive|]. split; [reflexivity|].
  split.
  - apply (C4_register_overwrites_unregister_ignores 7 _ Hlive).
  - apply (C4_register_overwrites_unregister_ignores 9 _ Hlive). reflexivity.
Defined.

(** Connections 1 and 2 attach and 1 detaches: 2 is attached and the gate
    flag is clear. *)
Lemma C5_counterexample :
  let s := after (for_each [Established 1; Established 2; Closed 1] deliver)
                 (bench_start accept_all) in
  ¬ (m_socketsOn s = true ↔ attached s).
Proof.
  intros s [_ Hflag].
  assert (Hatt : attached s).
  { exists 2. eexists. vm_compute. reflexivity. }
  apply Hflag in Hatt. vm_compute in Hatt. discriminate Hatt.
Qed.

Lemma C5_witness :
  m_socketsOn (after (for_each [Established 7] deliver) (bench_start accept_all)) = true
  ∧ attached (after (for_each [Established 7] deliver) (bench_start accept_all)).
Proof.
  split; [reflexivity|].
  apply (C5_gate_set_implies_attached (E:=bench accept_all)
           [Established 7] [] 145000000 2000000).
  reflexivity.
Defined.

Lemma bench_castable x k :
  castable (spgramcf_psd (Externals:=bench accept_all) nfft x k) = true.
Proof. simpl. destruct (Nat.even k); reflexivity. Defined.

Lemma C6_witness :
  (∀ k, (k < 512)%nat →
        castable (spgramcf_psd (Externals:=bench accept_all) nfft [] k) = true)
  ∧ (write_spectrum [] (bench_7 accept_all)).1 = Ok ()
  ∧ String.length (m_msgSOCKET (after (write_spectrum []) (bench_7 accept_all)))
    = 1325%nat.
Proof.
  assert (Hcast : ∀ k, (k < 512)%nat →
            castable (spgramcf_psd (Externals:=bench accept_all) nfft [] k) = true)
    by (intros k _; apply bench_castable).
  split; [exact Hcast|].
  destruct (C6_spectrum_message_format (E:=bench accept_all) [] (bench_7 accept_all) Hcast)
    as (_ & Hrun & _).
  unfold after. rewrite Hrun. split; [reflexivity | vm_compute; reflexivity].
Defined.

Lemma C7_witness :
  wait (-1) idle_poll bench_shallow = (Ok (), bench_shallow)
  ∧ queue_size (m_IQdataQueue bench_shallow) ≤ 5
  ∧ m_IQdataQueue (run_iteration idle_poll bench_shallow).2 = m_IQdataQueue bench_shallow
  ∧ wait (-1) idle_poll bench_deep = (Ok (), bench_deep)
  ∧ 5 < queue_size (m_IQdataQueue bench_deep)
  ∧ length (m_IQdataQueue (run_iteration idle_poll bench_deep).2) = 5%nat.
Proof.
  assert (Hshallow : wait (-1) idle_poll bench_shallow = (Ok (), bench_shallow))
    by reflexivity.
  assert (Hdeep : wait (-1) idle_poll bench_deep = (Ok (), bench_deep))
    by reflexivity.
  assert (Hle : queue_size (m_IQdataQueue bench_shallow) ≤ 5) by (vm_compute; discriminate).
  assert (Hgt : 5 < queue_size (m_IQdataQueue bench_deep)) by reflexivity.
  split; [exact Hshallow|]. split; [exact Hle|]. split.
  - apply (proj1 (C7_depth_gate idle_poll bench_shallow bench_shallow Hshallow) Hle).
  - split; [exact Hdeep|]. split; [exact Hgt|].
    destruct (proj2 (C7_depth_gate idle_poll bench_deep bench_deep Hdeep) Hgt)
      as (batch & rest & _ & _ & Hlen).
    rewrite Hlen. reflexivity.
Defined.

Lemma C8_witness :
  all_live (connections bench_logs)
  ∧ outbound_queue (after (broadcast_log "line") bench_logs) 1 = Some ["line"]
  ∧ outbound_queue (after (broadcast_log "line") bench_logs) 2 = Some [].
Proof.
  assert (Hlive : all_live (connections bench_logs))
    by (apply (bool_decide_unpack _); reflexivity).
  split; [exact Hlive|].
  destruct (C8_broadcast_log_by_permission "line" bench_logs Hlive)
    as (s' & Hrun & _ & _ & Hconn).
  unfold after, outbound_queue. rewrite Hrun. simpl. split.
  - destruct (Hconn 1 (with_permissions ["logs"] new_Connection) eq_refl)
      as (Hyes & _ & _).
    destruct Hyes as (c' & -> & Hbuf & _); [by left|]. by rewrite Hbuf.
  - destruct (Hconn 2 new_Connection eq_refl) as (_ & _ & Hnone).
    by rewrite Hnone.
Defined.

Lemma C9_witness :
  outbound_queue (bench_7 accept_all) 7 = Some []
  ∧ (getValue 7 "user" (bench_7 accept_all)).1 = Ok EmptyString
  ∧ (getValue 7 "user" (bench_7 accept_all)).2 ≠ bench_7 accept_all.
Proof.
  split; [reflexivity|].
  destruct (C9_getValue_absent_key_inserts (E:=bench accept_all) 7 "user"
              (bench_7 accept_all)
              {| buffer := []; keyValueMap := ∅; permissions := [];
                 user := EmptyString; createTime := 0 |})
    as (Hrun & _ & Hne).
  - reflexivity.
  - reflexivity.
  - split; [by rewrite Hrun | exact Hne].
Defined.

Lemma C10_witness :
  Z.of_nat (String.length "hello") ≤ npos
  ∧ ¬ In ":"%char (list_ascii_of_string "hello")
  ∧ find_first_of "hello" ":" = npos
  ∧ (wsSpectrogram_onMessage 7 "hello" (bench_7 accept_all)).1
    = Throw (invalid_argument "stoi").
Proof.
  assert (Hsize : Z.of_nat (String.length "hello") ≤ npos) by discriminate.
  assert (Hcolon : ¬ In ":"%char (list_ascii_of_string "hello")).
  { simpl. intros [H|[H|[H|[H|[H|[]]]]]]; discriminate H. }
  split; [exact Hsize|]. split; [exact Hcolon|].
  destruct (C10_onMessage_without_colon_parses_payload (E:=bench accept_all)
              7 "hello" (bench_7 accept_all) Hsize Hcolon)
    as (Hfind & _ & _ & _ & _ & Hthrow).
  split; [exact Hfind|].
  apply Hthrow. apply all_live_bench_7.
Defined.

(** Connection 7 is given the attribute "user" and asked for it. *)
Lemma X1_witness :
  connections (bench_7 accept_all) !! 7 = Some (ptr new_Connection)
  ∧ (getValue 7 "user" (after (setValue 7 "user" "anna") (bench_7 accept_all))).1
    = Ok "anna"%string.
Proof.
  split; [reflexivity|].
  destruct (setValue_then_getValue (E:=bench accept_all) 7 "user" "anna"
              (bench_7 accept_all) new_Connection)
    as (s1 & c1 & Hset & Hget & _).
  - reflexivity.
  - unfold after. rewrite Hset. cbn [snd]. by rewrite Hget.
Defined.

(** Connection 7 is asked twice for an attribute it does not hold. *)
Lemma X2_witness :
  connections (bench_7 accept_all) !! 7 = Some (ptr new_Connection)
  ∧ (getValue 7 "user" (after (getValue 7 "user") (bench_7 accept_all))).1
    = Ok EmptyString.
Proof.
  split; [reflexivity|].
  destruct (getValue_twice (E:=bench accept_all) 7 "user"
              (bench_7 accept_all) new_Connection)
    as (v & s1 & Hfirst & Hsecond & ->).
  - reflexivity.
  - unfold after. rewrite Hfirst. cbn [snd]. by rewrite Hsecond.
Defined.

(** Connection 7 has closed and is given an attribute. *)
Lemma X3_witness :
  connections bench_closed !! 7 = None
  ∧ (setValue 7 "user" "anna" bench_closed).1 = Fault
  ∧ (getValue 7 "user" bench_closed).1 = Fault.
Proof.
  split; [reflexivity|].
  destruct (unknown_id_faults (E:=bench accept_all) 7 bench_closed "C" "user" "anna")
    as (_ & Hset & Hget & _).
  - reflexivity.
  - by rewrite Hset, Hget.
Defined.

(** Connection 7 holds "A" and "B" and is sent "C" then "D". *)
Lemma X4_witness :
  outbound_queue (bench_AB accept_all) 7 = Some ["A"; "B"]
  ∧ outbound_queue (after (for_each ["C"; "D"] (send 7)) (bench_AB accept_all)) 7
    = Some ["A"; "B"; "C"; "D"].
Proof.
  split; [reflexivity|].
  destruct (sends_queue_in_order (E:=bench accept_all) 7 ["C"; "D"] (bench_AB accept_all)
              (push_all ["A"; "B"] new_Connection))
    as (s' & c' & Hrun & Hid & Hbuf & _).
  - reflexivity.
  - unfold after, outbound_queue. rewrite Hrun. cbn [snd]. by rewrite Hid, Hbuf.
Defined.

(** A broadcast to connections 1 and 2, of which only 1 holds "logs". *)
Lemma X5_witness :
  all_live (connections bench_logs)
  ∧ outbound_queue (after (broadcast "m") bench_logs) 1 = Some ["m"]
  ∧ outbound_queue (after (broadcast "m") bench_logs) 2 = Some ["m"].
Proof.
  assert (Hlive : all_live (connections bench_logs))
    by (apply (bool_decide_unpack _); reflexivity).
  split; [exact Hlive|].
  destruct (broadcast_reaches_every_connection "m" bench_logs Hlive)
    as (s' & Hrun & Hconn & _).
  unfold after, outbound_queue. rewrite Hrun. cbn [snd]. split.
  - by rewrite (proj1 (Hconn 1 (with_permissions ["logs"] new_Connection) eq_refl)).
  - by rewrite (proj1 (Hconn 2 new_Connection eq_refl)).
Defined.

(** The writable callback of connection 7, which holds "A" and "B", on
    the transport that takes every message whole. *)
Lemma X7_witness :
  outbound_queue (bench_AB accept_all) 7 = Some ["A"; "B"]
  ∧ all_sent (E:=bench accept_all) 7 (trace (bench_AB accept_all)) ["A"; "B"] = true
  ∧ written (trace (after (callback_main 7 LWS_CALLBACK_SERVER_WRITEABLE EmptyString)
                          (bench_AB accept_all)))
    = [(7, "A"); (7, "B")]%string.
Proof.
  split; [reflexivity|]. split; [reflexivity|].
  destruct (writable_sends_queue_in_order (E:=bench accept_all) 7 (bench_AB accept_all)
              (push_all ["A"; "B"] new_Connection))
    as (s' & Hrun & Hwritten & _).
  - reflexivity.
  - reflexivity.
  - unfold after. rewrite Hrun. cbn [snd]. rewrite Hwritten. reflexivity.
Defined.

(** The same callback on the transport that fails every write. *)
Lemma X8_witness :
  outbound_queue (bench_AB reject_all) 7 = Some ["A"; "B"]
  ∧ (callback_main 7 LWS_CALLBACK_SERVER_WRITEABLE EmptyString (bench_AB reject_all)).1
    = Ok 0
  ∧ outbound_queue (after (callback_main 7 LWS_CALLBACK_SERVER_WRITEABLE EmptyString)
                          (bench_AB reject_all)) 7
    = Some ["A"; "B"].
Proof.
  split; [reflexivity|].
  destruct (write_errors_go_unnoticed (E:=bench reject_all) 7 (bench_AB reject_all)
              (push_all ["A"; "B"] new_Connection))
    as (s' & Hrun & Hconn & _).
  - intros t buf. unfold INT_MIN. simpl. unfold reject_all. lia.
  - repeat constructor; vm_compute; discriminate.
  - reflexivity.
  - unfold after, outbound_queue. rewrite Hrun. cbn [fst snd]. rewrite Hconn.
    split; reflexivity.
Defined.

(** The message "A", a NUL, "B" in the queue of connection 7. *)
Lemma X9_witness :
  ¬ In Ascii.zero (list_ascii_of_string "A")
  ∧ drain 7 [String "A" (String Ascii.zero "B")] (bench_7 accept_all)
    = drain 7 ["A"%string] (bench_7 accept_all).
Proof.
  assert (Hnul : ¬ In Ascii.zero (list_ascii_of_string "A")).
  { simpl. intros [H|[]]. discriminate H. }
  split; [exact Hnul|].
  apply (message_cut_at_first_nul (E:=bench accept_all) 7 "A" "B" [] (bench_7 accept_all) Hnul).
Defined.

(** A turn of the producer with six batches waiting and connection 7
    attached. *)
Lemma X10_witness :
  all_live (connections bench_deep)
  ∧ m_socketsOn bench_deep = true
  ∧ 5 < queue_size (m_IQdataQueue bench_deep)
  ∧ (run_body bench_deep).1 = Ok ()
  ∧ length (m_IQdataQueue (run_body bench_deep).2) = 5%nat
  ∧ ∃ text, outbound_queue (run_body bench_deep).2 7 = Some [text].
Proof.
  assert (Hlive : all_live (connections bench_deep))
    by (apply (bool_decide_unpack _); reflexivity).
  assert (Hdepth : 5 < queue_size (m_IQdataQueue bench_deep)) by reflexivity.
  split; [exact Hlive|]. split; [reflexivity|]. split; [exact Hdepth|].
  destruct (producer_turn_broadcasts_spectrum (E:=bench accept_all) bench_deep
              {| data := [] |} (repeat {| data := [] |} 5) Hlive eq_refl eq_refl Hdepth)
    as (s' & Hrun & Hq & _ & _ & Hconn & _).
  - intros k _. apply bench_castable.
  - rewrite Hrun. cbn [fst snd]. rewrite Hq. split; [reflexivity|]. split; [reflexivity|].
    eexists. unfold outbound_queue. by rewrite (Hconn 7 new_Connection eq_refl).
Defined.

(** A turn of the producer with six batches waiting and nobody attached. *)
Lemma X11_witness :
  m_socketsOn bench_unattached = false
  ∧ 5 < queue_size (m_IQdataQueue bench_unattached)
  ∧ length (m_IQdataQueue (run_body bench_unattached).2) = 5%nat
  ∧ trace (run_body bench_unattached).2 = [].
Proof.
  assert (Hdepth : 5 < queue_size (m_IQdataQueue bench_unattached)) by reflexivity.
  split; [reflexivity|]. split; [exact Hdepth|].
  rewrite (producer_turn_discards_batch_when_gate_clear (E:=bench accept_all)
             bench_unattached {| data := [] |} (repeat {| data := [] |} 5)
             eq_refl eq_refl Hdepth).
  split; reflexivity.
Defined.

(** The client of connection 7 sends "freq:145". *)
Lemma X12_witness :
  in_int_range 145 = true
  ∧ starts_with_digit EmptyString = false
  ∧ (wsSpectrogram_onMessage 7 "freq:145" (bench_7 accept_all)).1 = Ok ()
  ∧ last (trace (wsSpectrogram_onMessage 7 "freq:145" (bench_7 accept_all)).2)
    = Some (EvLog lvl_info "cmd: freq par: 145 ").
Proof.
  split; [reflexivity|]. split; [reflexivity|].
  pose proof (onMessage_reads_command_and_number (E:=bench accept_all)
                7 "freq" 145 EmptyString (bench_7 accept_all)) as Hrun.
  change ("freq" +:+ String ":" (to_string 145 +:+ EmptyString))
    with "freq:145"%string in Hrun.
  rewrite Hrun.
  - split; reflexivity.
  - discriminate.
  - simpl. intros [H|[H|[H|[H|[]]]]]; discriminate H.
  - reflexivity.
  - reflexivity.
  - reflexivity.
  - apply all_live_bench_7.
Defined.

(** The client of connection 7 sends ":5". *)
Lemma X13_witness :
  (wsSpectrogram_onMessage 7 ":5" (bench_7 accept_all)).1 = Ok ()
  ∧ last (trace (wsSpectrogram_onMessage 7 ":5" (bench_7 accept_all)).2)
    = Some (EvLog lvl_info "cmd:  par: 0 ").
Proof.
  rewrite (onMessage_leading_colon_parses_nothing (E:=bench accept_all)
             7 "5" (bench_7 accept_all) (all_live_bench_7 accept_all)).
  split; reflexivity.
Defined.

(** Connection 7 attaches, is sent "A", and the engine polls. *)
Lemma X14_witness :
  (for_each bench_calls perform (@constructed (bench accept_all) [] 145000000 2000000)).1
  ≠ Fault
  ∧ ∃ c, connections
           (for_each bench_calls perform
              (@constructed (bench accept_all) [] 145000000 2000000)).2 !! 7
         = Some (ptr c).
Proof.
  assert (Hok : (for_each bench_calls perform
                   (@constructed (bench accept_all) [] 145000000 2000000)).1 ≠ Fault)
    by (vm_compute; discriminate).
  split; [exact Hok|].
  destruct (connections
              (for_each bench_calls perform
                 (@constructed (bench accept_all) [] 145000000 2000000)).2 !! 7)
    as [p|] eqn:Hp.
  - destruct (registry_never_holds_null (E:=bench accept_all) bench_calls
                [] 145000000 2000000 Hok 7 p Hp) as [c ->].
    by exists c.
  - vm_compute in Hp. discriminate Hp.
Defined.

(** Two idle polls with five batches waiting. *)
Lemma X16_witness :
  stopping bench_shallow = false
  ∧ stopping (run_loop [idle_poll; idle_poll] bench_shallow).2 = false
  ∧ run_loop [idle_poll; idle_poll]
      (terminate (run_loop [idle_poll; idle_poll] bench_shallow).2).2
    = (Ok (), (terminate (run_loop [idle_poll; idle_poll] bench_shallow).2).2).
Proof.
  split; [reflexivity|].
  destruct (loop_ends_only_on_terminate (E:=bench accept_all)
              [idle_poll; idle_poll] bench_shallow eq_refl)
    as (_ & Hstop & _ & _ & Hterm).
  split; [exact Hstop | exact Hterm].
Defined.

(** A failed poll with six batches waiting, and a poll behind it. *)
Lemma X17_witness :
  stopping bench_deep = false
  ∧ service_result failed_poll < 0
  ∧ run_loop [failed_poll; idle_poll] bench_deep
    = (Throw (runtime_error "Error polling for socket activity."), bench_deep).
Proof.
  split; [reflexivity|]. split; [reflexivity|].
  apply (failed_poll_ends_loop (E:=bench accept_all) failed_poll [idle_poll]
           bench_deep bench_deep); reflexivity.
Defined.

(** The short write of "BC" on the bench that takes one byte per call. *)
Lemma X18_witness :
  outbound_queue bench_ABCD 7 = Some (["A"] ++ "BC" :: ["D"])
  ∧ connections (after (callback_main 7 LWS_CALLBACK_SERVER_WRITEABLE EmptyString)
                       bench_ABCD) !! 7 = None
  ∧ In (EvOnError 7 "Error writing to socket")
       (trace (after (callback_main 7 LWS_CALLBACK_SERVER_WRITEABLE EmptyString)
                     bench_ABCD)).
Proof.
  split; [reflexivity|].
  destruct (short_write_closes_connection (E:=bench (accept_at_most 1))
              7 bench_ABCD
              {| buffer := ["A"; "BC"; "D"]; keyValueMap := ∅; permissions := [];
                 user := EmptyString; createTime := 0 |}
              ["A"] "BC" ["D"])
    as (s' & Hrun & Hgone & _ & Htrace).
  - apply (bool_decide_unpack _). reflexivity.
  - reflexivity.
  - reflexivity.
  - reflexivity.
  - split; [discriminate | reflexivity].
  - unfold after. rewrite Hrun. cbn [snd]. split; [exact Hgone|].
    rewrite Htrace. apply in_or_app. right. apply in_or_app. right.
    simpl. tauto.
Defined.
